(** * Incremental maintenance of a Workers KV namespace

    A shallow embedding of the incremental maintenance module (the
    scheduler [runIncrementalMaintenance], the sweep-and-delete handler
    [cleanupIncremental], the two archive builders
    [backupSubscribersIncremental] and [backupContactsIncremental], and
    [saveToGitHub]) together with the properties its specification states.

    The module is asynchronous JavaScript over three collaborators: the
    keyed store [env.KV], the wall clock [Date] and the GitHub archive
    sink.  The embedding threads an explicit [world] through every call:
    the contents of the keyed store, the number of clock readings taken so
    far; every call returns, next to its result, the calls it made on the
    collaborators, in order.  What the JavaScript runtime and the platform
    supply (the clock readings, the paginated listing, [JSON.parse],
    [JSON.stringify] and the [Date] conversions) is gathered in the class
    [Host]; the general theorems hold for every host, and the simulated
    host [Sim.host] is used to run scenarios.

    Calls on the keyed store are taken to succeed: a failing call aborts
    the invocation before the checkpoint is written and is not part of the
    model.

    Around the module, the development also embeds what it calls and what
    shares its namespace: [createOrUpdateFile] of the GitHub utilities,
    [runCleanup] and [cleanupSpecific] of the cleanup module, and the
    HTML escaping of the sanitization utilities. *)

From Stdlib Require Import ZArith Ascii String List Decimal DecimalString DecimalZ DecimalPos Lia.
From stdpp Require Import gmap strings list sorting.

Local Open Scope Z_scope.
Set Warnings "-register-all".

(** ** JavaScript values *)

Module JS.

(** Values that [JSON.parse] can return, and [undefined], which property
    reads produce.  Numbers are the integer-valued ones (counters and
    millisecond time stamps). *)
Inductive jsval : Type :=
| JUndef
| JNull
| JBool (b : bool)
| JNum (n : Z)
| JStr (s : string)
| JArr (items : list jsval)
| JObj (fields : list (string * jsval)).

(** The double quote character, as a one-character string. *)
Definition dq : string := String (ascii_of_nat 34) EmptyString.

(** ToBoolean. *)
Definition truthy (v : jsval) : bool :=
  match v with
  | JUndef | JNull | JBool false | JNum 0 | JStr EmptyString => false
  | _ => true
  end.

(** Truthiness of a string, as in [if (value)] and [value || dflt]. *)
Definition str_truthy (s : string) : bool :=
  match s with EmptyString => false | _ => true end.

(** [a || b]. *)
Definition js_or (a b : jsval) : jsval := if truthy a then a else b.

(** The own property [name] of an object literal; a later binding of the
    same name shadows an earlier one. *)
Fixpoint own_property (name : string) (fields : list (string * jsval)) : option jsval :=
  match fields with
  | [] => None
  | (k, v) :: rest =>
      match own_property name rest with
      | Some v' => Some v'
      | None => if String.eqb k name then Some v else None
      end
  end.

(** [data.name] for the property names this module reads (none of them is
    defined on a prototype).  [None] is the TypeError raised on [null] and
    [undefined]. *)
Definition js_prop (data : jsval) (name : string) : option jsval :=
  match data with
  | JUndef | JNull => None
  | JObj fields => Some (default JUndef (own_property name fields))
  | _ => Some JUndef
  end.

Definition string_of_Z (n : Z) : string := NilZero.string_of_int (Z.to_int n).

Fixpoint join (sep : string) (parts : list string) : string :=
  match parts with
  | [] => EmptyString
  | [p] => p
  | p :: rest => p +:+ sep +:+ join sep rest
  end.

(** ToString, as applied by template literals. *)
Fixpoint js_to_string (v : jsval) : string :=
  match v with
  | JUndef => "undefined"
  | JNull => "null"
  | JBool true => "true"
  | JBool false => "false"
  | JNum n => string_of_Z n
  | JStr s => s
  | JArr items =>
      join ","
        (List.map (fun x => match x with
                            | JUndef | JNull => EmptyString
                            | _ => js_to_string x
                            end) items)
  | JObj _ => "[object Object]"
  end.

(** [strip_prefix p s] is the rest of [s] after its prefix [p]. *)
Fixpoint strip_prefix (p s : string) : option string :=
  match p with
  | EmptyString => Some s
  | String a p' =>
      match s with
      | EmptyString => None
      | String b s' => if Ascii.eqb a b then strip_prefix p' s' else None
      end
  end.

(** [s.replace(pat, '')]: the first occurrence of [pat] is removed. *)
Fixpoint remove_first (pat s : string) : string :=
  match strip_prefix pat s with
  | Some rest => rest
  | None =>
      match s with
      | EmptyString => EmptyString
      | String c s' => String c (remove_first pat s')
      end
  end.

(** [s.split('T')[0]]. *)
Fixpoint before_T (s : string) : string :=
  match s with
  | EmptyString => EmptyString
  | String c s' => if Ascii.eqb c "T" then EmptyString else String c (before_T s')
  end.

End JS.
Export JS.

(** ** The host: clock, keyed-store listing, JSON and Date *)

(** One page of [env.KV.list]: the key names, the cursor of the next page
    and the [list_complete] flag.  A result without a key array is a page
    with no keys. *)
Record page : Type := Page {
  keys : list string;
  page_cursor : option string;
  list_complete : bool
}.

Class Host : Type := {
  (** the n-th reading of the clock, in milliseconds *)
  clock : nat -> Z;
  (** [env.KV.list({prefix, limit, cursor})] on the given store contents *)
  kv_list : gmap string string -> string -> nat -> option string -> page;
  (** [JSON.parse]; [None] when it throws *)
  JSON_parse : string -> option jsval;
  (** [JSON.stringify] *)
  JSON_stringify : jsval -> string;
  (** [new Date(s).getTime()] for a string; [None] is NaN *)
  Date_parse : string -> option Z;
  (** [new Date(ms).toISOString()] *)
  Date_toISOString : Z -> string;
  (** [new Date(ms).toLocaleString()] *)
  Date_toLocaleString : Z -> string
}.

(** ** Configuration and persisted records *)

Record config : Type := Config {
  KEEP_PREFIX_MAINTENANCE : string;
  PREFIX_RATELIMIT : string;
  PREFIX_BOT_DETECT : string;
  PREFIX_CAPTCHA : string;
  PREFIX_SUBSCRIBER : string;
  PREFIX_CONTACT : string;
  GITHUB_TOKEN : option string;
  GITHUB_BACKUP_REPO : string;
  GITHUB_BACKUP_BRANCH : string
}.

(** The checkpoint object [state]. *)
Record state : Type := State {
  phase : string;
  cursor : option string;
  processed : Z;
  startedAt : string
}.

(** What a phase handler returns: [{ complete, cursor, count }]. *)
Record step_result : Type := StepResult {
  complete : bool;
  res_cursor : option string;
  count : Z
}.

(** What [runIncrementalMaintenance] returns. *)
Inductive run_result : Type :=
| Complete
| Continue (ph : string) (n : Z).

(** How an invocation ends: it returns, it rethrows the error of
    [JSON.parse] on the checkpoint, or the checkpoint text parses to a
    value that is not a checkpoint object (outside this model). *)
Inductive outcome : Type :=
| Returned (r : run_result)
| Thrown
| Unmodelled.

(** ** Observable calls *)

(** The calls an invocation makes on its collaborators, in the order it
    makes them.  Of the console output only the warning of [saveToGitHub]
    and the phase line printed by the scheduler are recorded. *)
Inductive event : Type :=
| KVGet (key : string)
| KVPut (key value : string)
| KVDelete (key : string)
| KVList (prefix : string) (limit : nat) (cur : option string) (result : page)
| SinkUpsert (repo branch path content message : string)
| ConsoleWarn (msg : string)
| LogPhase (ph : string) (n : Z).

(** The contents of the keyed store and the number of clock readings
    taken so far. *)
Record world : Type := World {
  kv : gmap string string;
  ticks : nat
}.

(** ** The monad of an invocation: state passing plus the emitted calls *)

Definition M (A : Type) : Type := world -> A * world * list event.

Definition ret {A} (a : A) : M A := fun w => (a, w, []).
Definition bind {A B} (m : M A) (k : A -> M B) : M B :=
  fun w => let '(a, w1, e1) := m w in
           let '(b, w2, e2) := k a w1 in
           (b, w2, e1 ++ e2).

Declare Scope m_scope.
Delimit Scope m_scope with M.
Notation "'let*' x ':=' m 'in' k" := (bind m (fun x => k))
  (at level 10, x pattern, m at level 100, k at level 200, only parsing) : m_scope.
Notation "m ';;' k" := (bind m (fun _ => k))
  (at level 100, k at level 200, right associativity, only parsing) : m_scope.
Local Open Scope m_scope.

Definition emit (e : event) : M unit := fun w => (tt, w, [e]).

Section Model.
Context `{Host}.

(** [Date.now()] and [new Date()]: the next clock reading. *)
Definition Date_now : M Z :=
  fun w => (clock (ticks w), {| kv := kv w; ticks := S (ticks w) |}, []).

Definition KV_get (key : string) : M (option string) :=
  fun w => (kv w !! key, w, [KVGet key]).

Definition KV_put (key value : string) : M unit :=
  fun w => (tt, {| kv := <[key := value]> (kv w); ticks := ticks w |},
            [KVPut key value]).

Definition KV_delete (key : string) : M unit :=
  fun w => (tt, {| kv := delete key (kv w); ticks := ticks w |}, [KVDelete key]).

Definition KV_list (prefix : string) (limit : nat) (cur : option string) : M page :=
  fun w => let pg := kv_list (kv w) prefix limit cur in
           (pg, w, [KVList prefix limit cur pg]).

(** [new Date(v).getTime()]; [None] is NaN.  A number is a time value when
    it lies within 8.64e15 ms of the epoch; a string is parsed; an array or
    object is first converted to a string. *)
Definition Date_getTime (v : jsval) : option Z :=
  match v with
  | JUndef => None
  | JNull => Some 0
  | JBool b => Some (if b then 1 else 0)
  | JNum n => if Z.abs n <=? 8640000000000000 then Some n else None
  | JStr s => Date_parse s
  | JArr _ | JObj _ => Date_parse (js_to_string v)
  end.

(** *** saveToGitHub *)

(** [createOrUpdateFile] is the upsert of the sink.  It reports failure in
    its result, which [saveToGitHub] does not look at, and whatever it
    throws is caught and logged here: the call is an event and nothing
    more. *)
Definition saveToGitHub (cfg : config) (filename content : string) : M unit :=
  if negb (from_option str_truthy false (GITHUB_TOKEN cfg)) then
    emit (ConsoleWarn "GitHub token not configured, skipping backup")
  else
    let* t := Date_now in
    let timestamp := before_T (Date_toISOString t) in
    let path := "backups/" +:+ timestamp +:+ "-" +:+ filename in
    let* t' := Date_now in
    emit (SinkUpsert (GITHUB_BACKUP_REPO cfg) (GITHUB_BACKUP_BRANCH cfg) path content
            ("Incremental backup - " +:+ filename +:+ " - " +:+ Date_toLocaleString t')).

(** *** cleanupIncremental *)

Definition prefixesToClean (cfg : config) : list (string * Z) :=
  [ (PREFIX_RATELIMIT cfg, 24 * 60 * 60 * 1000);
    (PREFIX_BOT_DETECT cfg, 7 * 24 * 60 * 60 * 1000);
    (PREFIX_CAPTCHA cfg, 60 * 60 * 1000) ].

(** [data.timestamp || data.createdAt]; [None] when the read throws. *)
Definition record_timestamp (data : jsval) : option jsval :=
  match js_prop data "timestamp" with
  | None => None
  | Some t => if truthy t then Some t else js_prop data "createdAt"
  end.

(** The test guarding the delete, on the text stored under a key:
    [timestamp && (now - new Date(timestamp).getTime()) > maxAge].  Any
    exception on the way is swallowed by the [catch]. *)
Definition expired (now maxAge : Z) (value : string) : bool :=
  match JSON_parse value with
  | None => false
  | Some data =>
      match record_timestamp data with
      | None => false
      | Some timestamp =>
          truthy timestamp &&
          match Date_getTime timestamp with
          | Some t => maxAge <? now - t
          | None => false
          end
      end
  end.

(** The body of the inner loop for one key; returns whether it deleted. *)
Definition cleanup_key (now maxAge : Z) (key : string) : M bool :=
  let* value := KV_get key in
  match value with
  | Some v =>
      if str_truthy v && expired now maxAge v
      then (KV_delete key ;; ret true)
      else ret false
  | None => ret false
  end.

(** The inner loop [for (const key of list.keys)]: the flag tells whether
    it left through the time-limit return. *)
Fixpoint cleanup_keys (startTime maxTime now maxAge : Z) (ks : list string)
    (n : Z) : M (bool * Z) :=
  match ks with
  | [] => ret (false, n)
  | key :: rest =>
      let* t := Date_now in
      if maxTime <? t - startTime then ret (true, n)
      else
        let* deleted := cleanup_key now maxAge key in
        cleanup_keys startTime maxTime now maxAge rest (if deleted then n + 1 else n)
  end.

(** The outer loop [for (const { prefix, maxAge } of prefixesToClean)]. *)
Fixpoint cleanup_prefixes (startTime maxTime now : Z) (cur : option string)
    (ps : list (string * Z)) (n : Z) : M step_result :=
  match ps with
  | [] => ret {| complete := true; res_cursor := None; count := n |}
  | (prefix, maxAge) :: rest =>
      let* t := Date_now in
      if maxTime <? t - startTime then
        ret {| complete := false; res_cursor := cur; count := n |}
      else
        let* lst := KV_list prefix 5 cur in
        match keys lst with
        | [] => cleanup_prefixes startTime maxTime now cur rest n
        | _ =>
            let* (timed_out, n') :=
              cleanup_keys startTime maxTime now maxAge (keys lst) n in
            if timed_out then
              ret {| complete := false; res_cursor := page_cursor lst; count := n' |}
            else if negb (list_complete lst) then
              ret {| complete := false; res_cursor := page_cursor lst; count := n' |}
            else cleanup_prefixes startTime maxTime now cur rest n'
        end
  end.

Definition cleanupIncremental (cfg : config) (st : state) (maxTime : Z) : M step_result :=
  let* startTime := Date_now in
  let* now := Date_now in
  cleanup_prefixes startTime maxTime now (cursor st) (prefixesToClean cfg) 0.

(** *** The archive builders *)

Definition nl : string := String (ascii_of_nat 10) EmptyString.

(** One line of the subscribers file for the key [name] holding [data];
    [None] when [JSON.parse] or a property read throws. *)
Definition subscriber_row (cfg : config) (name data : string) : option string :=
  let email := remove_first (PREFIX_SUBSCRIBER cfg) name in
  match JSON_parse data with
  | None => None
  | Some subscriberData =>
      match js_prop subscriberData "ipAddress", js_prop subscriberData "timestamp" with
      | Some ip, Some ts =>
          Some (dq +:+ email +:+ dq +:+ "," +:+
                dq +:+ js_to_string (js_or ip (JStr EmptyString)) +:+ dq +:+ "," +:+
                dq +:+ js_to_string (js_or ts (JStr EmptyString)) +:+ dq +:+ nl)
      | _, _ => None
      end
  end.

(** One line of the contacts file. *)
Definition contact_row (name data : string) : option string :=
  match JSON_parse data with
  | None => None
  | Some contact =>
      match js_prop contact "email", js_prop contact "name", js_prop contact "phone",
            js_prop contact "message", js_prop contact "subscribed",
            js_prop contact "ipAddress", js_prop contact "timestamp" with
      | Some email, Some name', Some phone, Some message, Some subscribed,
        Some ip, Some ts =>
          Some (dq +:+ js_to_string email +:+ dq +:+ "," +:+
                dq +:+ js_to_string name' +:+ dq +:+ "," +:+
                dq +:+ js_to_string phone +:+ dq +:+ "," +:+
                dq +:+ js_to_string message +:+ dq +:+ "," +:+
                dq +:+ js_to_string subscribed +:+ dq +:+ "," +:+
                dq +:+ js_to_string (js_or ip (JStr EmptyString)) +:+ dq +:+ "," +:+
                dq +:+ js_to_string (js_or ts (JStr EmptyString)) +:+ dq +:+ nl)
      | _, _, _, _, _, _, _ => None
      end
  end.

(** What distinguishes the two builders: the buffer key, the header line,
    the length the buffer must exceed to be flushed on an empty page, the
    file name, the partition prefix and the row formatter. *)
Record builder : Type := Builder {
  csvKey : string;
  header : string;
  flush_above : nat;
  filename : string;
  partition : string;
  row : string -> string -> option string
}.

Definition subscribers_builder (cfg : config) : builder :=
  {| csvKey := KEEP_PREFIX_MAINTENANCE cfg +:+ "backup-csv-subscribers";
     header := "email,ip_address,timestamp" +:+ nl;
     flush_above := 30;
     filename := "subscribers-backup.csv";
     partition := PREFIX_SUBSCRIBER cfg;
     row := subscriber_row cfg |}.

Definition contacts_builder (cfg : config) : builder :=
  {| csvKey := KEEP_PREFIX_MAINTENANCE cfg +:+ "backup-csv-contacts";
     header := "email,name,phone,message,subscribed,ip_address,timestamp" +:+ nl;
     flush_above := 50;
     filename := "contacts-backup.csv";
     partition := PREFIX_CONTACT cfg;
     row := contact_row |}.

(** The body of the loop for one key: the row to append, if any. *)
Definition archive_key (b : builder) (key : string) : M (option string) :=
  let* data := KV_get key in
  ret (match data with
       | Some d => if str_truthy d then row b key d else None
       | None => None
       end).

(** The loop [for (const key of list.keys)].  On the time limit it persists
    the buffer and reports that it left early. *)
Fixpoint archive_keys (b : builder) (startTime maxTime : Z) (ks : list string)
    (existingCsv : string) (n : Z) : M (bool * string * Z) :=
  match ks with
  | [] => ret (false, existingCsv, n)
  | key :: rest =>
      let* t := Date_now in
      if maxTime <? t - startTime then
        (KV_put (csvKey b) existingCsv ;; ret (true, existingCsv, n))
      else
        let* r := archive_key b key in
        match r with
        | Some line => archive_keys b startTime maxTime rest (existingCsv +:+ line) (n + 1)
        | None => archive_keys b startTime maxTime rest existingCsv n
        end
  end.

Definition archive_step (cfg : config) (b : builder) (st : state) (maxTime : Z)
    : M step_result :=
  let* startTime := Date_now in
  let* stored := KV_get (csvKey b) in
  let existingCsv :=
    match stored with
    | Some s => if str_truthy s then s else header b
    | None => header b
    end in
  let* lst := KV_list (partition b) 20 (cursor st) in
  match keys lst with
  | [] =>
      (if str_truthy existingCsv && (flush_above b <? String.length existingCsv)%nat
       then (saveToGitHub cfg (filename b) existingCsv ;; KV_delete (csvKey b))
       else ret tt) ;;
      ret {| complete := true; res_cursor := None; count := 0 |}
  | _ =>
      let* (timed_out, csv, n) :=
        archive_keys b startTime maxTime (keys lst) existingCsv 0 in
      if timed_out then
        ret {| complete := false; res_cursor := page_cursor lst; count := n |}
      else
        KV_put (csvKey b) csv ;;
        if list_complete lst then
          saveToGitHub cfg (filename b) csv ;;
          KV_delete (csvKey b) ;;
          ret {| complete := true; res_cursor := None; count := n |}
        else
          ret {| complete := false; res_cursor := page_cursor lst; count := n |}
  end.

Definition backupSubscribersIncremental (cfg : config) (st : state) (maxTime : Z)
    : M step_result :=
  archive_step cfg (subscribers_builder cfg) st maxTime.

Definition backupContactsIncremental (cfg : config) (st : state) (maxTime : Z)
    : M step_result :=
  archive_step cfg (contacts_builder cfg) st maxTime.

(** *** runIncrementalMaintenance *)

Definition MAX_EXECUTION_TIME : Z := 8.

Definition stateKey (cfg : config) : string :=
  KEEP_PREFIX_MAINTENANCE cfg +:+ "incremental-state".

Definition completionKey (cfg : config) : string :=
  KEEP_PREFIX_MAINTENANCE cfg +:+ "last-complete".

(** The checkpoint as the object that [JSON.stringify] receives.  A cursor
    that is [null] or [undefined] is written as [null]. *)
Definition json_of_state (st : state) : jsval :=
  JObj [ ("phase", JStr (phase st));
         ("cursor", match cursor st with Some c => JStr c | None => JNull end);
         ("processed", JNum (processed st));
         ("startedAt", JStr (startedAt st)) ].

(** Reading the checkpoint fields back from a parsed object. *)
Definition state_of_json (j : jsval) : option state :=
  match j with
  | JObj fields =>
      match own_property "phase" fields, own_property "processed" fields,
            own_property "startedAt" fields with
      | Some (JStr ph), Some (JNum n), Some (JStr t) =>
          match default JUndef (own_property "cursor" fields) with
          | JStr c => Some {| phase := ph; cursor := Some c; processed := n; startedAt := t |}
          | JNull | JUndef =>
              Some {| phase := ph; cursor := None; processed := n; startedAt := t |}
          | _ => None
          end
      | _, _, _ => None
      end
  | _ => None
  end.

Definition completion_record (completedAt : Z) (totalProcessed : Z) : jsval :=
  JObj [ ("completedAt", JStr (Date_toISOString completedAt));
         ("totalProcessed", JNum totalProcessed) ].

Inductive loaded : Type :=
| LState (st : state)
| LThrown
| LUnmodelled.

(** [stateData ? JSON.parse(stateData) : { phase: 'cleanup', ... }]. *)
Definition load_state (cfg : config) : M loaded :=
  let* stateData := KV_get (stateKey cfg) in
  match stateData with
  | Some text =>
      if str_truthy text then
        ret (match JSON_parse text with
             | None => LThrown
             | Some j => match state_of_json j with
                         | Some st => LState st
                         | None => LUnmodelled
                         end
             end)
      else
        let* t := Date_now in
        ret (LState {| phase := "cleanup"; cursor := None; processed := 0;
                       startedAt := Date_toISOString t |})
  | None =>
      let* t := Date_now in
      ret (LState {| phase := "cleanup"; cursor := None; processed := 0;
                     startedAt := Date_toISOString t |})
  end.

(** The two arms of [if (processed.complete)] that update [state]. *)
Definition next_state (st : state) (next : string) (r : step_result) : state :=
  if complete r then
    {| phase := next; cursor := None; processed := 0; startedAt := startedAt st |}
  else
    {| phase := phase st; cursor := res_cursor r;
       processed := processed st + count r; startedAt := startedAt st |}.

(** Save state for next run, and return. *)
Definition save_state (cfg : config) (st : state) : M outcome :=
  KV_put (stateKey cfg) (JSON_stringify (json_of_state st)) ;;
  let* t := Date_now in
  ret (Returned (Continue (phase st) (processed st))).

Definition runIncrementalMaintenance (cfg : config) : M outcome :=
  let* startTime := Date_now in
  let* l := load_state cfg in
  match l with
  | LThrown => ret Thrown
  | LUnmodelled => ret Unmodelled
  | LState st =>
      emit (LogPhase (phase st) (processed st)) ;;
      if String.eqb (phase st) "cleanup" then
        let* t := Date_now in
        let* r := cleanupIncremental cfg st (MAX_EXECUTION_TIME - (t - startTime)) in
        save_state cfg (next_state st "backup-subscribers" r)
      else if String.eqb (phase st) "backup-subscribers" then
        let* t := Date_now in
        let* r := backupSubscribersIncremental cfg st
                    (MAX_EXECUTION_TIME - (t - startTime)) in
        save_state cfg (next_state st "backup-contacts" r)
      else if String.eqb (phase st) "backup-contacts" then
        let* t := Date_now in
        let* r := backupContactsIncremental cfg st
                    (MAX_EXECUTION_TIME - (t - startTime)) in
        if complete r then
          KV_delete (stateKey cfg) ;;
          let* t' := Date_now in
          KV_put (completionKey cfg)
                 (JSON_stringify (completion_record t' (processed st))) ;;
          ret (Returned Complete)
        else
          save_state cfg (next_state st "backup-contacts" r)
      else
        save_state cfg st
  end.

(** A sequence of invocations, as successive cron runs make them.  Nothing
    is kept in memory between two invocations, so a restart of the worker
    between them changes nothing. *)
Fixpoint invocations (n : nat) (cfg : config) : M (list outcome) :=
  match n with
  | O => ret []
  | S n' =>
      let* o := runIncrementalMaintenance cfg in
      let* os := invocations n' cfg in
      ret (o :: os)
  end.

End Model.

(** ** A simulated host

    A concrete host on which scenarios run: a lister that pages through the
    keys of a prefix in lexicographic order, a compact JSON codec, and ISO
    dates.  The clock is left as a parameter of the instance. *)

Module Sim.

(** *** Paginated listing

    Keys come back in lexicographic order, at most [limit] of them.  The
    cursor of a page is the name of its last key and is present only when
    keys remain after the page; listing from a cursor returns the keys
    that follow it. *)

Definition has_prefix (p s : string) : bool :=
  match strip_prefix p s with Some _ => true | None => false end.

Definition sorted_keys (m : gmap string string) (prefix : string) : list string :=
  merge_sort String.le (List.filter (has_prefix prefix) (fst <$> map_to_list m)).

Definition list_keys (m : gmap string string) (prefix : string) (limit : nat)
    (cur : option string) : page :=
  let ks := sorted_keys m prefix in
  let rest := match cur with
              | None => ks
              | Some c => List.filter (fun k => String.ltb c k) ks
              end in
  let pg := take limit rest in
  match drop limit rest with
  | [] => {| keys := pg; page_cursor := None; list_complete := true |}
  | _ :: _ => {| keys := pg; page_cursor := last pg; list_complete := false |}
  end.

(** *** A compact JSON codec

    No white space; strings escape the double quote and the backslash;
    numbers are decimal integers.  Object members whose value is
    [undefined] are left out, as [JSON.stringify] does. *)

Definition backslash : ascii := ascii_of_nat 92.
Definition dquote : ascii := ascii_of_nat 34.

Fixpoint escape (s : string) : string :=
  match s with
  | EmptyString => EmptyString
  | String c s' =>
      if Ascii.eqb c dquote || Ascii.eqb c backslash
      then String backslash (String c (escape s'))
      else String c (escape s')
  end.

Definition print_string (s : string) : string :=
  String dquote (escape s +:+ String dquote EmptyString).

Definition print_member (k body : string) : string :=
  print_string k +:+ String ":" body.

Fixpoint print (v : jsval) : string :=
  match v with
  | JUndef | JNull => "null"
  | JBool true => "true"
  | JBool false => "false"
  | JNum n => string_of_Z n
  | JStr s => print_string s
  | JArr items => String "[" (join "," (List.map print items) +:+ "]")
  | JObj fields =>
      String "{"
        (join ","
           ((fix members (l : list (string * jsval)) : list string :=
               match l with
               | [] => []
               | (_, JUndef) :: l' => members l'
               | (k, x) :: l' => print_member k (print x) :: members l'
               end) fields) +:+ "}")
  end.

(** The text after an opening quote, up to the closing quote. *)
Fixpoint parse_string_body (s : string) : option (string * string) :=
  match s with
  | EmptyString => None
  | String c s' =>
      if Ascii.eqb c dquote then Some (EmptyString, s')
      else if Ascii.eqb c backslash then
        match s' with
        | String e s'' =>
            if Ascii.eqb e dquote || Ascii.eqb e backslash then
              match parse_string_body s'' with
              | Some (r, rest) => Some (String e r, rest)
              | None => None
              end
            else None
        | EmptyString => None
        end
      else
        match parse_string_body s' with
        | Some (r, rest) => Some (String c r, rest)
        | None => None
        end
  end.

Definition digit_of (c : ascii) : option (uint -> uint) :=
  match c with
  | "0" => Some D0 | "1" => Some D1 | "2" => Some D2 | "3" => Some D3
  | "4" => Some D4 | "5" => Some D5 | "6" => Some D6 | "7" => Some D7
  | "8" => Some D8 | "9" => Some D9 | _ => None
  end%char.

Fixpoint parse_digits (s : string) : uint * string :=
  match s with
  | EmptyString => (Nil, EmptyString)
  | String c s' =>
      match digit_of c with
      | Some d => let (u, rest) := parse_digits s' in (d u, rest)
      | None => (Nil, s)
      end
  end.

Definition parse_number (s : string) : option (Z * string) :=
  match s with
  | String "-" s' =>
      match parse_digits s' with
      | (Nil, _) => None
      | (u, rest) => Some (Z.of_int (Neg u), rest)
      end
  | _ =>
      match parse_digits s with
      | (Nil, _) => None
      | (u, rest) => Some (Z.of_int (Pos u), rest)
      end
  end.

Fixpoint parse_value (fuel : nat) (s : string) : option (jsval * string) :=
  match fuel with
  | O => None
  | S fuel' =>
      match s with
      | EmptyString => None
      | String c s' =>
          if Ascii.eqb c "n" then
            match strip_prefix "ull" s' with Some r => Some (JNull, r) | None => None end
          else if Ascii.eqb c "t" then
            match strip_prefix "rue" s' with Some r => Some (JBool true, r) | None => None end
          else if Ascii.eqb c "f" then
            match strip_prefix "alse" s' with Some r => Some (JBool false, r) | None => None end
          else if Ascii.eqb c dquote then
            match parse_string_body s' with
            | Some (x, r) => Some (JStr x, r)
            | None => None
            end
          else if Ascii.eqb c "[" then
            match s' with
            | String "]" r => Some (JArr [], r)
            | _ => match parse_items fuel' s' with
                   | Some (xs, r) => Some (JArr xs, r)
                   | None => None
                   end
            end
          else if Ascii.eqb c "{" then
            match s' with
            | String "}" r => Some (JObj [], r)
            | _ => match parse_members fuel' s' with
                   | Some (fs, r) => Some (JObj fs, r)
                   | None => None
                   end
            end
          else
            match parse_number s with
            | Some (n, r) => Some (JNum n, r)
            | None => None
            end
      end
  end
with parse_items (fuel : nat) (s : string) : option (list jsval * string) :=
  match fuel with
  | O => None
  | S fuel' =>
      match parse_value fuel' s with
      | Some (x, String "," r) =>
          match parse_items fuel' r with
          | Some (xs, r') => Some (x :: xs, r')
          | None => None
          end
      | Some (x, String "]" r) => Some ([x], r)
      | _ => None
      end
  end
with parse_members (fuel : nat) (s : string) : option (list (string * jsval) * string) :=
  match fuel with
  | O => None
  | S fuel' =>
      match s with
      | String q s' =>
          if Ascii.eqb q dquote then
            match parse_string_body s' with
            | Some (k, String ":" r) =>
                match parse_value fuel' r with
                | Some (x, String "," r') =>
                    match parse_members fuel' r' with
                    | Some (fs, r'') => Some ((k, x) :: fs, r'')
                    | None => None
                    end
                | Some (x, String "}" r') => Some ([(k, x)], r')
                | _ => None
                end
            | _ => None
            end
          else None
      | EmptyString => None
      end
  end.

Definition parse (s : string) : option jsval :=
  match parse_value (2 * String.length s + 2) s with
  | Some (v, EmptyString) => Some v
  | _ => None
  end.

(** *** ISO dates *)

Definition digit (n : Z) : ascii := ascii_of_N (48 + Z.to_N (n mod 10)).

Definition pad2 (n : Z) (rest : string) : string :=
  String (digit (n / 10)) (String (digit n) rest).

Definition pad3 (n : Z) (rest : string) : string :=
  String (digit (n / 100)) (pad2 n rest).

Definition pad4 (n : Z) (rest : string) : string :=
  String (digit (n / 1000)) (pad3 n rest).

(** The civil date (year, month, day) of a day number counted from
    1970-01-01. *)
Definition civil_from_days (days : Z) : Z * Z * Z :=
  let z := days + 719468 in
  let era := z / 146097 in
  let doe := z - era * 146097 in
  let yoe := (doe - doe / 1460 + doe / 36524 - doe / 146096) / 365 in
  let doy := doe - (365 * yoe + yoe / 4 - yoe / 100) in
  let mp := (5 * doy + 2) / 153 in
  let d := doy - (153 * mp + 2) / 5 + 1 in
  let m := if mp <? 10 then mp + 3 else mp - 9 in
  let y := yoe + era * 400 + (if m <=? 2 then 1 else 0) in
  (y, m, d).

Definition days_from_civil (y m d : Z) : Z :=
  let y' := if m <=? 2 then y - 1 else y in
  let era := y' / 400 in
  let yoe := y' - era * 400 in
  let doy := (153 * (if 2 <? m then m - 3 else m + 9) + 2) / 5 + d - 1 in
  let doe := yoe * 365 + yoe / 4 - yoe / 100 + doy in
  era * 146097 + doe - 719468.

(** [YYYY-MM-DDTHH:mm:ss.sssZ], for the years 0000 to 9999. *)
Definition toISOString (ms : Z) : string :=
  let '(y, m, d) := civil_from_days (ms / 86400000) in
  let r := ms mod 86400000 in
  let time := pad2 (r / 3600000) (String ":" (pad2 (r / 60000 mod 60) (String ":"
                (pad2 (r / 1000 mod 60) (String "." (pad3 (r mod 1000) "Z")))))) in
  pad4 y (String "-" (pad2 m (String "-" (pad2 d (String "T" time))))).

Definition num_of (cs : list ascii) : option Z :=
  foldl (fun acc c =>
           match acc, Ascii.is_nat c with
           | Some a, Some d => Some (10 * a + Z.of_nat d)
           | _, _ => None
           end) (Some 0) cs.

(** The inverse of [toISOString]; any other text is not a date. *)
Definition parse_date (s : string) : option Z :=
  match list_ascii_of_string s with
  | [y1; y2; y3; y4; "-"; m1; m2; "-"; d1; d2; "T"; h1; h2; ":"; i1; i2; ":";
     s1; s2; "."; f1; f2; f3; "Z"]%char =>
      match num_of [y1; y2; y3; y4], num_of [m1; m2], num_of [d1; d2],
            num_of [h1; h2], num_of [i1; i2], num_of [s1; s2], num_of [f1; f2; f3] with
      | Some y, Some m, Some d, Some h, Some i, Some sec, Some f =>
          Some (days_from_civil y m d * 86400000 + h * 3600000 + i * 60000
                + sec * 1000 + f)
      | _, _, _, _, _, _, _ => None
      end
  | _ => None
  end.

(** The simulated host with a given clock.  Its locale prints dates in
    ISO form. *)
Definition host (clk : nat -> Z) : Host :=
  {| clock := clk;
     kv_list := list_keys;
     JSON_parse := parse;
     JSON_stringify := print;
     Date_parse := parse_date;
     Date_toISOString := toISOString;
     Date_toLocaleString := toISOString |}.

Definition cfg : config :=
  {| KEEP_PREFIX_MAINTENANCE := "maintenance:";
     PREFIX_RATELIMIT := "ratelimit:";
     PREFIX_BOT_DETECT := "bot-detect:";
     PREFIX_CAPTCHA := "captcha:";
     PREFIX_SUBSCRIBER := "subscriber:";
     PREFIX_CONTACT := "contact:";
     GITHUB_TOKEN := Some "ghp_example";
     GITHUB_BACKUP_REPO := "site-backups";
     GITHUB_BACKUP_BRANCH := "main" |}.

(** *** Scenarios *)

(** Midnight of 2023-11-15, in milliseconds since the epoch. *)
Definition t0 : Z := 1700006400000.

(** A clock that stands at [t0] for the first [n] readings and [late]
    milliseconds later from then on. *)
Definition clock_with_delay (n : nat) (late : Z) : nat -> Z :=
  fun i => if (i <? n)%nat then t0 else t0 + late.

Definition steady_clock : nat -> Z := fun _ => t0.

Definition empty_world : world := {| kv := ∅; ticks := 0 |}.

Definition address (i : nat) : string :=
  "u" +:+ pad2 (Z.of_nat i) "@example.org".

Definition subscriber_key (i : nat) : string := "subscriber:" +:+ address i.

(** What a subscriber record holds; it was stored two days before [t0]. *)
Definition subscriber_value : string :=
  print (JObj [("ipAddress", JStr "203.0.113.7");
               ("timestamp", JStr (toISOString (t0 - 172800000)))]).

(** The line of the subscribers file for subscriber [i]. *)
Definition subscriber_line (i : nat) : string :=
  dq +:+ address i +:+ dq +:+ "," +:+ dq +:+ "203.0.113.7" +:+ dq +:+ "," +:+
  dq +:+ toISOString (t0 - 172800000) +:+ dq +:+ nl.

(** A store holding the subscribers 1 to [n] and nothing else. *)
Definition subscribers (n : nat) : world :=
  {| kv := list_to_map ((fun i => (subscriber_key i, subscriber_value)) <$> seq 1 n);
     ticks := 0 |}.

Definition ratelimit_key (i : nat) : string :=
  "ratelimit:r" +:+ pad2 (Z.of_nat i) EmptyString.

(** A rate-limit record stored two days before [t0]. *)
Definition ratelimit_value : string :=
  print (JObj [("count", JNum 3);
               ("timestamp", JStr (toISOString (t0 - 172800000)))]).

(** A store holding the rate-limit records 1 to [n] and nothing else. *)
Definition ratelimits (n : nat) : world :=
  {| kv := list_to_map ((fun i => (ratelimit_key i, ratelimit_value)) <$> seq 1 n);
     ticks := 0 |}.


(** The checkpoint of a cycle that has reached a phase. *)
Definition checkpoint_at (ph : string) (n : Z) : string :=
  print (json_of_state {| phase := ph; cursor := None; processed := n;
                          startedAt := toISOString t0 |}).

(** The subscribers buffer holding the header and the line of subscriber 1,
    all subscriber records being gone from the store. *)
Definition buffered_world : world :=
  {| kv := {[ "maintenance:backup-csv-subscribers" :=
                ("email,ip_address,timestamp" +:+ nl) +:+ subscriber_line 1 ]};
     ticks := 0 |}.


Definition cfg_without_token : config :=
  {| KEEP_PREFIX_MAINTENANCE := "maintenance:";
     PREFIX_RATELIMIT := "ratelimit:";
     PREFIX_BOT_DETECT := "bot-detect:";
     PREFIX_CAPTCHA := "captcha:";
     PREFIX_SUBSCRIBER := "subscriber:";
     PREFIX_CONTACT := "contact:";
     GITHUB_TOKEN := None;
     GITHUB_BACKUP_REPO := "site-backups";
     GITHUB_BACKUP_BRANCH := "main" |}.

(** The checkpoint of a cycle that starts at [t0]. *)
Definition checkpoint0 : state :=
  {| phase := "cleanup"; cursor := None; processed := 0;
     startedAt := toISOString t0 |}.


(** The simulated host with a clock that never advances. *)
Definition steady : Host := host steady_clock.

(** The simulated host whose clock jumps by 20 ms at its reading number
    [n]. *)
Definition delayed (n : nat) : Host := host (clock_with_delay n 20).


End Sim.

(** ** Vocabulary of the properties *)

Section Vocabulary.
Context `{Host}.

(** A stored record is stale for [maxAge] at time [now]: its value is
    present, parses as JSON, carries a time stamp ([timestamp], or else
    [createdAt]) that denotes a date, and that date lies more than [maxAge]
    before [now]. *)
Definition stale (now maxAge : Z) (m : gmap string string) (key : string) : Prop :=
  exists text data ts t,
    m !! key = Some text /\ text <> EmptyString /\
    JSON_parse text = Some data /\
    record_timestamp data = Some ts /\ truthy ts = true /\
    Date_getTime ts = Some t /\
    now - t > maxAge.

(** The enumeration of a partition is over for this pass: the page just
    fetched is the last one, or it holds no key (line 124 of the handler
    moves on to the next partition in both cases). *)
Definition exhausted (pg : page) : Prop :=
  list_complete pg = true \/ keys pg = [].

End Vocabulary.

Definition is_list (e : event) : bool :=
  match e with KVList _ _ _ _ => true | _ => false end.




Definition is_upsert (e : event) : bool :=
  match e with SinkUpsert _ _ _ _ _ => true | _ => false end.

Definition is_log (e : event) : bool :=
  match e with LogPhase _ _ => true | _ => false end.

(** How many events of a trace satisfy a test. *)
Definition tally (f : event -> bool) (evs : list event) : nat :=
  length (List.filter f evs).

(** The phases the scheduler dispatched to, one per invocation, in order. *)
Fixpoint phases_logged (evs : list event) : list string :=
  match evs with
  | [] => []
  | LogPhase p _ :: rest => p :: phases_logged rest
  | _ :: rest => phases_logged rest
  end.

(** [emits P m]: every event of every run of [m] satisfies [P]. *)
Definition emits {A} (P : event -> Prop) (m : M A) : Prop :=
  forall w, Forall P (m w).2.

(** The warning by which [saveToGitHub] announces that it skips the upload. *)
Definition skip_warning : event :=
  ConsoleWarn "GitHub token not configured, skipping backup".

Fixpoint concat_lines (lines : list string) : string :=
  match lines with
  | [] => EmptyString
  | l :: rest => l +:+ concat_lines rest
  end.

(** Lines that the row formatter of a builder produced. *)
Definition built_by (b : builder) (lines : list string) : Prop :=
  Forall (fun l => exists key data, row b key data = Some l) lines.

(** One more clock reading taken. *)
Definition tick (w : world) : world := {| kv := kv w; ticks := S (ticks w) |}.

(** The handler the scheduler dispatches to in a phase. *)
Definition handler_of `{Host} (ph : string)
    : option (config -> state -> Z -> M step_result) :=
  if String.eqb ph "cleanup" then Some cleanupIncremental
  else if String.eqb ph "backup-subscribers" then Some backupSubscribersIncremental
  else if String.eqb ph "backup-contacts" then Some backupContactsIncremental
  else None.

(** The fixed order of the phases: the phase that follows a phase, the last
    one having none. *)
Definition next_phase (ph : string) : option string :=
  if String.eqb ph "cleanup" then Some "backup-subscribers"
  else if String.eqb ph "backup-subscribers" then Some "backup-contacts"
  else None.

(** What the text under the checkpoint key holds: nothing usable (absent or
    empty), or what parsing it yields. *)
Definition stored_checkpoint `{Host} (cfg : config) (m : gmap string string)
    : option loaded :=
  match m !! stateKey cfg with
  | Some text =>
      if str_truthy text then
        Some (match JSON_parse text with
              | None => LThrown
              | Some j => match state_of_json j with
                          | Some st => LState st
                          | None => LUnmodelled
                          end
              end)
      else None
  | None => None
  end.

(** The checkpoint of a cycle that starts at time [t]. *)
Definition fresh_state `{Host} (t : Z) : state :=
  {| phase := "cleanup"; cursor := None; processed := 0;
     startedAt := Date_toISOString t |}.




(** The checkpoint survives being written and read back: the text that
    [JSON.stringify] produces for it is not empty and parses to an object
    with the same fields. *)
Definition checkpoint_codec `{Host} : Prop :=
  forall st,
    str_truthy (JSON_stringify (json_of_state st)) = true /\
    exists j, JSON_parse (JSON_stringify (json_of_state st)) = Some j /\
              state_of_json j = Some st.

(** [q] may follow [p] in the sequence of dispatched phases: the same phase
    again, the next phase, or cleanup again after the last phase (the cycle
    was reset). *)
Definition follows (p q : string) : Prop :=
  q = p \/ next_phase p = Some q \/ (p = "backup-contacts" /\ q = "cleanup").

Fixpoint chain (l : list string) : Prop :=
  match l with
  | p :: (q :: _) as rest => follows p q /\ chain rest
  | _ => True
  end.

(** The phases run in the fixed order, starting with cleanup. *)
Definition phase_order (l : list string) : Prop :=
  match l with
  | [] => True
  | p :: _ => p = "cleanup" /\ chain l
  end.

(** The result of an invocation that saves the checkpoint [st'] after a
    handler that left the world [w2] and made the calls [e2]; [logged] is
    the checkpoint the invocation had loaded. *)
Definition continued `{Host} (cfg : config) (st' logged : state) (w2 : world)
    (e2 : list event) : outcome * world * list event :=
  (Returned (Continue (phase st') (processed st')),
   {| kv := <[stateKey cfg := JSON_stringify (json_of_state st')]> (kv w2);
      ticks := S (ticks w2) |},
   KVGet (stateKey cfg) :: LogPhase (phase logged) (processed logged) :: e2 ++
   [KVPut (stateKey cfg) (JSON_stringify (json_of_state st'))]).

(** The checkpoint an invocation started in [w] works on, and the world in
    which it dispatches: the stored checkpoint, or a fresh one when none is
    stored (building it reads the clock once more). *)
Definition loaded_checkpoint `{Host} (cfg : config) (w : world) : loaded * world :=
  match stored_checkpoint cfg (kv w) with
  | Some l => (l, tick w)
  | None => (LState (fresh_state (clock (S (ticks w)))), tick (tick w))
  end.

(** The budget handed to the handler. *)
Definition budget `{Host} (w w1 : world) : Z :=
  MAX_EXECUTION_TIME - (clock (ticks w1) - clock (ticks w)).

(** The result of the invocation that completes the cycle. *)
Definition completed `{Host} (cfg : config) (logged : state) (w2 : world)
    (e2 : list event) : outcome * world * list event :=
  let record := JSON_stringify (completion_record (clock (ticks w2)) (processed logged)) in
  (Returned Complete,
   {| kv := <[completionKey cfg := record]> (delete (stateKey cfg) (kv w2));
      ticks := S (ticks w2) |},
   KVGet (stateKey cfg) :: LogPhase (phase logged) (processed logged) :: e2 ++
   [KVDelete (stateKey cfg); KVPut (completionKey cfg) record]).

(** The phase the next invocation will dispatch to, when the store holds a
    usable checkpoint or none. *)
Definition pending_phase `{Host} (cfg : config) (m : gmap string string)
    : option string :=
  match stored_checkpoint cfg m with
  | None => Some "cleanup"
  | Some (LState st) => Some (phase st)
  | Some _ => None
  end.

(** What was uploaded to the sink: the paths and the contents, in order. *)
Fixpoint uploads (evs : list event) : list (string * string) :=
  match evs with
  | [] => []
  | SinkUpsert _ _ path content _ :: rest => (path, content) :: uploads rest
  | _ :: rest => uploads rest
  end.

(** The text that follows does not begin with a digit, so a number printed
    before it ends where it begins. *)
Definition no_digit_ahead (rest : string) : Prop :=
  match rest with
  | EmptyString => True
  | String c _ => Sim.digit_of c = None
  end.

(** The reading of the specification for missing credentials: when the
    token is not configured and the step announces that it skips the
    upload, the buffer is still in the keyed store after the step. *)
Definition retains_buffer `{Host} (cfg : config) (b : builder) (st : state)
    (maxTime : Z) (w : world) : Prop :=
  from_option str_truthy false (GITHUB_TOKEN cfg) = false ->
  let '(_, w', evs) := archive_step cfg b st maxTime w in
  In skip_warning evs -> kv w' !! csvKey b <> None.

(** The values written under a key, in order. *)
Fixpoint puts_to (key : string) (evs : list event) : list string :=
  match evs with
  | [] => []
  | KVPut k v :: rest =>
      if String.eqb k key then v :: puts_to key rest else puts_to key rest
  | _ :: rest => puts_to key rest
  end.

(** *** Vocabulary of the handlers' effects *)

Definition is_deletion (e : event) : bool :=
  match e with KVDelete _ => true | _ => false end.

(** [m'] is [m] with some keys deleted, each of them satisfying [P]. *)
Definition only_deleted (P : string -> Prop) (m m' : gmap string string) : Prop :=
  forall key, m' !! key = m !! key \/ (m' !! key = None /\ P key).

(** A key is stale for one of the sweep's partitions. *)
Definition stale_somewhere `{Host} (cfg : config) (now : Z) (m : gmap string string)
    (key : string) : Prop :=
  exists p, In p (prefixesToClean cfg) /\ stale now p.2 m key.

(** The buffer an archive step starts from: the stored one, or the header
    line when none is stored (or an empty one). *)
Definition loaded_buffer (b : builder) (m : gmap string string) : string :=
  match m !! csvKey b with
  | Some s => if str_truthy s then s else header b
  | None => header b
  end.

(** The line that the record under [key] contributes, if any: none when the
    record is absent or empty, or when formatting it throws. *)
Definition record_row (b : builder) (m : gmap string string) (key : string)
    : option string :=
  match m !! key with
  | Some d => if str_truthy d then row b key d else None
  | None => None
  end.

(** The lines of the records under the keys [ks], in order. *)
Definition page_rows (b : builder) (m : gmap string string) (ks : list string)
    : list string :=
  omap (record_row b m) ks.

(** The path under which [saveToGitHub] uploads the file [name] at time
    [t]. *)
Definition dated_path `{Host} (t : Z) (name : string) : string :=
  "backups/" +:+ before_T (Date_toISOString t) +:+ "-" +:+ name.

(** The calls of an invocation that loads the checkpoint [st] and runs no
    handler. *)
Definition idle_calls `{Host} (cfg : config) (st : state) : list event :=
  [ KVGet (stateKey cfg); LogPhase (phase st) (processed st);
    KVPut (stateKey cfg) (JSON_stringify (json_of_state st)) ].

(** ** The archive sink: [createOrUpdateFile]

    The function of the GitHub utilities that [saveToGitHub] calls.  The
    network is a parameter: what the two requests of one call are answered
    with, by the request.  Messages printed on the console are left out. *)

(** What [withHttpRetry] resolves to, as [getFile] reads it: a response
    with the value its [json()] yields ([None] when that rejects), a
    failure with [error?.status] when that is a number, or a rejection. *)
Inductive retry_result : Type :=
| RetryOk (body : option jsval)
| RetryFailed (status : option Z)
| RetryRejected.

(** What [fetch] followed by [response.text()] yields: a rejection with an
    error whose [message] is given, or [ok], [status] and the text. *)
Inductive fetch_result : Type :=
| FetchRejected (message : jsval)
| Response (ok : bool) (status : Z) (text : string).

Class Network : Type := {
  (** [withHttpRetry(url, { headers: { Authorization, ... } }, ...)] *)
  withHttpRetry : string -> string -> retry_result;
  (** [fetch(url, { method: 'PUT', headers: { Authorization, ... }, body })] *)
  fetch : string -> string -> string -> fetch_result
}.

(** The requests made, in order. *)
Inductive request : Type :=
| Lookup (url authorization : string)
| Put (url authorization body : string).

(** The [error] field of a failure: a value, or the message of an error
    that the engine raised ([JSON.parse] on a text, a property read on
    [null]), whose wording is the engine's. *)
Inductive error_value : Type :=
| ErrorValue (v : jsval)
| SyntaxErrorMessage (text : string)
| TypeErrorMessage.

(** [{ success: true, sha, url }] or [{ success: false, error }]. *)
Inductive upload_result : Type :=
| Uploaded (sha url : jsval)
| Failed (error : error_value).

(** [v?.name]. *)
Definition js_opt_prop (v : jsval) (name : string) : jsval :=
  default JUndef (js_prop v name).

(** [v?.[0]]. *)
Definition js_opt_first (v : jsval) : jsval :=
  match v with
  | JArr (x :: _) => x
  | JStr (String c _) => JStr (String c EmptyString)
  | JObj fields => default JUndef (own_property "0" fields)
  | _ => JUndef
  end.

(** *** toBase64

    Strings stand for sequences of code units below 256; [TextEncoder]
    writes a code unit below 128 as one byte and the others as two. *)

Definition utf8 (c : ascii) : list N :=
  let n := N_of_ascii c in
  if (n <? 128)%N then [n]
  else [(192 + n / 64)%N; (128 + n mod 64)%N].

Definition base64_alphabet : string :=
  "ABCDEFGHIJKLMNOPQRSTUVWXYZabcdefghijklmnopqrstuvwxyz0123456789+/".

Definition sextet (n : N) : ascii :=
  default "="%char (String.get (N.to_nat n) base64_alphabet).

(** [btoa] on the bytes of a binary string. *)
Fixpoint btoa (bytes : list N) : string :=
  match bytes with
  | [] => EmptyString
  | [a] =>
      String (sextet (a / 4)) (String (sextet (a mod 4 * 16)) "==")
  | [a; b] =>
      String (sextet (a / 4))
        (String (sextet (a mod 4 * 16 + b / 16))
           (String (sextet (b mod 16 * 4)) "="))
  | a :: b :: c :: rest =>
      String (sextet (a / 4))
        (String (sextet (a mod 4 * 16 + b / 16))
           (String (sextet (b mod 16 * 4 + c / 64))
              (String (sextet (c mod 64)) (btoa rest))))
  end%N.

Definition toBase64 (str : string) : string :=
  btoa (flat_map utf8 (list_ascii_of_string str)).

Section GitHub.
Context `{Host} {net : Network}.

Definition contents_url (owner repo path : string) : string :=
  "https://api.github.com/repos/" +:+ owner +:+ "/" +:+ repo +:+ "/contents/" +:+ path.

(** [getFile]: the value it returns, [None] when it throws, and the request
    it made. *)
Definition getFile (owner token repo branch path : string)
    : option jsval * list request :=
  let url := contents_url owner repo path +:+ "?ref=" +:+ branch in
  let authorization := "Bearer " +:+ token in
  (match withHttpRetry url authorization with
   | RetryOk body => body
   | RetryFailed (Some status) => if status =? 404 then Some JNull else None
   | RetryFailed None => None
   | RetryRejected => None
   end,
   [Lookup url authorization]).

(** The body of the PUT request: the [sha] of the existing file is included
    when there is one. *)
Definition put_body (existingFile : jsval) (branch content message : string) : jsval :=
  JObj ([ ("message", JStr message);
          ("content", JStr (toBase64 content));
          ("branch", JStr branch) ] ++
        (if truthy existingFile && truthy (js_opt_prop existingFile "sha")
         then [("sha", js_opt_prop existingFile "sha")]
         else [])).

(** The error message for a response that is not [ok]. *)
Definition error_message (owner repo branch : string) (status : Z) (text : string)
    : jsval :=
  let errorMessage := JStr ("GitHub API error: " +:+ string_of_Z status) in
  match JSON_parse text with
  | None => errorMessage
  | Some errorJson =>
      match js_prop errorJson "message" with
      | None => errorMessage
      | Some m =>
          if status =? 401 then
            JStr "Invalid GitHub token - please check GITHUB_TOKEN"
          else if status =? 403 then
            JStr "GitHub token lacks permissions - ensure it has repo write access"
          else if status =? 404 then
            JStr ("Repository " +:+ owner +:+ "/" +:+ repo +:+
                  " not found or branch " +:+ branch +:+ " does not exist")
          else if status =? 422 then
            JStr ("Validation failed: " +:+
                  js_to_string
                    (js_or (js_opt_prop (js_opt_first (js_opt_prop errorJson "errors"))
                                        "message") m))
          else js_or m errorMessage
      end
  end.

Definition createOrUpdateFile (cfg : config) (GITHUB_OWNER : option string)
    (repo branch path content message : string) : upload_result * list request :=
  if negb (from_option str_truthy false (GITHUB_TOKEN cfg)) then
    (Failed (ErrorValue (JStr "GITHUB_TOKEN is not configured")), [])
  else if negb (from_option str_truthy false GITHUB_OWNER) then
    (Failed (ErrorValue (JStr "GITHUB_OWNER is not configured")), [])
  else
    let token := default EmptyString (GITHUB_TOKEN cfg) in
    let owner := default EmptyString GITHUB_OWNER in
    let '(found, lookups) := getFile owner token repo branch path in
    let existingFile := default JNull found in
    let url := contents_url owner repo path in
    let authorization := "Bearer " +:+ token in
    let body := JSON_stringify (put_body existingFile branch content message) in
    (match fetch url authorization body with
     | FetchRejected m => Failed (ErrorValue (js_or m (JStr "Unknown error occurred")))
     | Response false status text =>
         Failed (ErrorValue (error_message owner repo branch status text))
     | Response true status text =>
         match JSON_parse text with
         | None => Failed (SyntaxErrorMessage text)
         | Some result =>
             match js_prop result "content" with
             | None => Failed TypeErrorMessage
             | Some c => Uploaded (js_opt_prop c "sha") (js_opt_prop c "html_url")
             end
         end
     end,
     lookups ++ [Put url authorization body]).

End GitHub.

(** ** The full cleanup: [runCleanup]

    The cleanup module sweeps the whole namespace in one call: it deletes
    every key that starts with none of the prefixes to keep.  The loop
    [while (hasMore)] is run on fuel, one unit per page; the lister is
    taken to return a key array, and the messages printed on the console
    are left out. *)

(** The configuration that [runCleanup] reads: the prefixes of the
    incremental module and five more. *)
Record cleanup_config : Type := CleanupConfig {
  incremental : config;
  PREFIX_NEWSLETTER_SENT : string;
  PREFIX_NEWSLETTER_SENT_URL : string;
  KEEP_PREFIX_DAILY : string;
  KEEP_PREFIX_DEPLOYMENT : string;
  KEEP_PREFIX_STATS : string
}.

(** The object [results]. *)
Record cleanup_results : Type := CleanupResults {
  cleanedTotal : Z;
  keptPrefixes : list string;
  cleanedPrefixes : list string;
  timestamp : string
}.

(** The counter [deleted] and the two lists of [results] while the loop
    runs. *)
Record cleanup_progress : Type := CleanupProgress {
  deleted : Z;
  kept_so_far : list string;
  cleaned_so_far : list string
}.

Definition keepPrefixes (c : cleanup_config) : list string :=
  [ PREFIX_SUBSCRIBER (incremental c);
    PREFIX_CONTACT (incremental c);
    PREFIX_NEWSLETTER_SENT c;
    PREFIX_NEWSLETTER_SENT_URL c;
    KEEP_PREFIX_MAINTENANCE (incremental c);
    KEEP_PREFIX_DAILY c;
    KEEP_PREFIX_DEPLOYMENT c;
    KEEP_PREFIX_STATS c ].

(** [s.startsWith(p)]. *)
Definition startsWith (s p : string) : bool :=
  match strip_prefix p s with Some _ => true | None => false end.

(** The inner loop [for (const keepPrefix of keepPrefixes)]. *)
Definition shouldKeep (c : cleanup_config) (name : string) : bool :=
  existsb (startsWith name) (keepPrefixes c).

(** [s.split(':')[0]]. *)
Fixpoint before_colon (s : string) : string :=
  match s with
  | EmptyString => EmptyString
  | String c s' => if Ascii.eqb c ":" then EmptyString else String c (before_colon s')
  end.

(** [if (!list.includes(prefix)) list.push(prefix)]. *)
Definition push_new (prefix : string) (l : list string) : list string :=
  if existsb (String.eqb prefix) l then l else l ++ [prefix].

Section Cleanup.
Context `{Host}.

(** The loop [for (const key of list.keys)]. *)
Fixpoint cleanup_page (c : cleanup_config) (ks : list string) (p : cleanup_progress)
    : M cleanup_progress :=
  match ks with
  | [] => ret p
  | name :: rest =>
      if shouldKeep c name then
        cleanup_page c rest
          {| deleted := deleted p;
             kept_so_far := push_new (before_colon name) (kept_so_far p);
             cleaned_so_far := cleaned_so_far p |}
      else
        KV_delete name ;;
        cleanup_page c rest
          {| deleted := deleted p + 1;
             kept_so_far := kept_so_far p;
             cleaned_so_far := push_new (before_colon name) (cleaned_so_far p) |}
  end.

(** The loop [while (hasMore)]; [None] when the fuel does not reach the
    last page. *)
Fixpoint cleanup_pages (fuel : nat) (c : cleanup_config) (cur : option string)
    (p : cleanup_progress) : M (option cleanup_progress) :=
  match fuel with
  | O => ret None
  | S fuel' =>
      let* lst := KV_list EmptyString 1000 cur in
      let* p' := cleanup_page c (keys lst) p in
      if negb (list_complete lst) then cleanup_pages fuel' c (page_cursor lst) p'
      else ret (Some p')
  end.

Definition runCleanup (fuel : nat) (c : cleanup_config) : M (option cleanup_results) :=
  let* t := Date_now in
  let* done :=
    cleanup_pages fuel c None
      {| deleted := 0; kept_so_far := []; cleaned_so_far := [] |} in
  ret (match done with
       | Some p =>
           Some {| cleanedTotal := deleted p;
                   keptPrefixes := kept_so_far p;
                   cleanedPrefixes := cleaned_so_far p;
                   timestamp := Date_toISOString t |}
       | None => None
       end).

End Cleanup.

(** The pages that were listed, in order. *)
Fixpoint pages_listed (evs : list event) : list page :=
  match evs with
  | [] => []
  | KVList _ _ _ pg :: rest => pg :: pages_listed rest
  | _ :: rest => pages_listed rest
  end.

(** The keys that the incremental module keeps its own state under: the
    checkpoint, the completion record and the two buffers. *)
Definition maintenance_keys `{Host} (cfg : config) : list string :=
  [ stateKey cfg; completionKey cfg;
    csvKey (subscribers_builder cfg); csvKey (contacts_builder cfg) ].

(** *** cleanupSpecific

    The manual cleanup deletes the keys of a prefix that match a pattern.
    Regular expressions are a parameter: [new RegExp(pattern)] yields the
    test of the expression, or throws ([None]). *)


Section CleanupSpecific.
Context `{Host}.
Variable RegExp : string -> option (string -> bool).






End CleanupSpecific.

(** ** HTML sanitization

    The escaping functions of the sanitization utilities.  A string is a
    sequence of code units; the characters that the functions replace are
    ASCII, so the encoding of the others does not matter. *)

(** [s.replace(/c/g, r)] for a single character [c]. *)
Fixpoint replace_all (c : ascii) (r : string) (s : string) : string :=
  match s with
  | EmptyString => EmptyString
  | String a s' =>
      if Ascii.eqb a c then r +:+ replace_all c r s'
      else String a (replace_all c r s')
  end.

(** The double quote and the apostrophe, as characters. *)
Definition quote_char : ascii := ascii_of_nat 34.
Definition apostrophe : ascii := ascii_of_nat 39.

(** The characters that [escapeHtml] replaces, the ampersand apart. *)
Definition html_delimiter (c : ascii) : bool :=
  Ascii.eqb c "<" || Ascii.eqb c ">" ||
  Ascii.eqb c quote_char || Ascii.eqb c apostrophe || Ascii.eqb c "/".

(** What one character becomes when all replacements are made at once. *)
Definition entity_of (c : ascii) : string :=
  if Ascii.eqb c "&" then "&amp;"
  else if Ascii.eqb c "<" then "&lt;"
  else if Ascii.eqb c ">" then "&gt;"
  else if Ascii.eqb c quote_char then "&quot;"
  else if Ascii.eqb c apostrophe then "&#039;"
  else if Ascii.eqb c "/" then "&#x2F;"
  else String c EmptyString.

(** Every character replaced by its entity, in one pass. *)
Fixpoint escaped_at_once (s : string) : string :=
  match s with
  | EmptyString => EmptyString
  | String c s' => entity_of c +:+ escaped_at_once s'
  end.

Module Sanitize.

(** The chain of [replace] calls of [escapeHtml]. *)
Definition escape_chain (s : string) : string :=
  replace_all "/" "&#x2F;"
    (replace_all apostrophe "&#039;"
       (replace_all quote_char "&quot;"
          (replace_all ">" "&gt;"
             (replace_all "<" "&lt;"
                (replace_all "&" "&amp;" s))))).

(** [escapeHtml]: a falsy argument gives the empty string, any other is
    converted to a string first. *)
Definition escapeHtml (unsafe : jsval) : string :=
  if negb (truthy unsafe) then EmptyString
  else escape_chain (js_to_string unsafe).

Definition sanitizeHtml (html : jsval) : string :=
  if negb (truthy html) then EmptyString
  else escapeHtml html.

End Sanitize.

Module ValidationFix.

(** The lookahead [(lt|gt|quot|#39|amp);] at the text that follows an
    ampersand. *)
Definition entity_ahead (rest : string) : bool :=
  existsb (startsWith rest) ["lt;"; "gt;"; "quot;"; "#39;"; "amp;"].

(** [s.replace(/&(?!(lt|gt|quot|#39|amp);)/g, '&amp;')]. *)
Fixpoint escape_bare_ampersands (s : string) : string :=
  match s with
  | EmptyString => EmptyString
  | String c rest =>
      if Ascii.eqb c "&" && negb (entity_ahead rest)
      then "&amp;" +:+ escape_bare_ampersands rest
      else String c (escape_bare_ampersands rest)
  end.

(** [sanitizeHtml] of the validation fix; its argument is a string. *)
Definition sanitizeHtml (input : string) : string :=
  if negb (str_truthy input) then EmptyString
  else
    replace_all apostrophe "&#39;"
      (replace_all quote_char "&quot;"
         (replace_all ">" "&gt;"
            (replace_all "<" "&lt;"
               (escape_bare_ampersands input)))).

(** The characters that [sanitizeHtml] replaces wherever they stand. *)
Definition markup (c : ascii) : bool :=
  Ascii.eqb c "<" || Ascii.eqb c ">" || Ascii.eqb c quote_char || Ascii.eqb c apostrophe.

(** What the character [c] followed by [rest] becomes when all
    replacements are made at once. *)
Definition replacement (c : ascii) (rest : string) : string :=
  if Ascii.eqb c "&" then (if entity_ahead rest then "&" else "&amp;")
  else if Ascii.eqb c "<" then "&lt;"
  else if Ascii.eqb c ">" then "&gt;"
  else if Ascii.eqb c quote_char then "&quot;"
  else if Ascii.eqb c apostrophe then "&#39;"
  else String c EmptyString.

Fixpoint replaced_at_once (s : string) : string :=
  match s with
  | EmptyString => EmptyString
  | String c rest => replacement c rest +:+ replaced_at_once rest
  end.

(** A character that no replacement concerns. *)
Definition plain (c : ascii) : bool := negb (Ascii.eqb c "&") && negb (markup c).

(** A text in which every ampersand starts one of the five entities and
    that holds none of the four other characters. *)
Fixpoint escaped (s : string) : bool :=
  match s with
  | EmptyString => true
  | String c rest =>
      (if Ascii.eqb c "&" then entity_ahead rest else negb (markup c)) && escaped rest
  end.

End ValidationFix.

(** No character of the string satisfies [p]. *)
Definition free_of (p : ascii -> bool) (s : string) : Prop :=
  Forall (fun c => p c = false) (list_ascii_of_string s).

(** ** Runs on the simulated host *)

Module Scenario.
Import Sim.




(** The subscribers step on [buffered_world], with and without the token. *)
Definition flush_step : step_result * world * list event :=
  backupSubscribersIncremental (H := steady) cfg checkpoint0 8 buffered_world.

Definition skipped_flush : step_result * world * list event :=
  backupSubscribersIncremental (H := steady) cfg_without_token checkpoint0 8
    buffered_world.

(** A cycle over two subscribers whose second invocation meets the time
    limit after the first key of the only page. *)
Definition short_cycle : list outcome * world * list event :=
  invocations (H := delayed 13) 3 cfg (subscribers 2).

(** A cycle over 21 subscribers whose second invocation meets the time
    limit after the first key of the first page. *)
Definition long_cycle : list outcome * world * list event :=
  invocations (H := delayed 13) 4 cfg (subscribers 21).

(** A cycle over six stale rate-limit records whose first invocation meets
    the time limit after the first key of the first page. *)
Definition sweep_cycle : list outcome * world * list event :=
  invocations (H := delayed 7) 4 cfg (ratelimits 6).

(** The sweep of three stale rate-limit records on a steady clock. *)
Definition stale_sweep : step_result * world * list event :=
  cleanupIncremental (H := steady) cfg checkpoint0 8 (ratelimits 3).

(** The subscribers step over three subscribers: on a steady clock, and on
    a clock that is late from its fourth reading on, which interrupts the
    step before the third key. *)
Definition full_step : step_result * world * list event :=
  backupSubscribersIncremental (H := steady) cfg checkpoint0 8 (subscribers 3).

Definition interrupted_step : step_result * world * list event :=
  backupSubscribersIncremental (H := delayed 3) cfg checkpoint0 8 (subscribers 3).

(** The handler run of the first invocation of [sweep_cycle]. *)
Definition interrupted_sweep : step_result * world * list event :=
  cleanupIncremental (H := delayed 7) cfg (fresh_state (H := delayed 7) t0)
    (budget (H := delayed 7) (ratelimits 6) (tick (tick (ratelimits 6))))
    (tick (tick (tick (ratelimits 6)))).

(** A checkpoint whose phase is none of the three, and a store holding it. *)
Definition foreign_checkpoint : state :=
  {| phase := "archive"; cursor := None; processed := 7;
     startedAt := toISOString t0 |}.

Definition foreign_world : world :=
  {| kv := {[ "maintenance:incremental-state" := checkpoint_at "archive" 7 ]};
     ticks := 0 |}.

(** The sweep of six stale rate-limit records on a steady clock: the first
    page holds five of them. *)
Definition paged_sweep : step_result * world * list event :=
  cleanupIncremental (H := steady) cfg checkpoint0 8 (ratelimits 6).

(** A store whose checkpoint is not JSON. *)
Definition garbled_world : world :=
  {| kv := {[ "maintenance:incremental-state" := "{phase" ]}; ticks := 0 |}.

(** Two networks: one on which the lookup is rejected and the upload is
    accepted, one that refuses the token with a body that is not JSON. *)
Definition accepting : Network :=
  {| withHttpRetry := fun _ _ => RetryRejected;
     fetch := fun _ _ _ =>
       Response true 201
         (print (JObj [("content",
                        JObj [("sha", JStr "95b966ae");
                              ("html_url", JStr "https://github.com/o/r/f")])])) |}.

Definition refusing : Network :=
  {| withHttpRetry := fun _ _ => RetryFailed (Some 404);
     fetch := fun _ _ _ => Response false 401 "Bad credentials" |}.

(** The configuration of the full cleanup, and a store that holds two
    subscribers, three rate-limit records and the checkpoint of a cycle in
    its second phase. *)
Definition cleanup_cfg : cleanup_config :=
  {| incremental := cfg;
     PREFIX_NEWSLETTER_SENT := "newsletter-sent:";
     PREFIX_NEWSLETTER_SENT_URL := "newsletter-sent-url:";
     KEEP_PREFIX_DAILY := "daily:";
     KEEP_PREFIX_DEPLOYMENT := "deployment:";
     KEEP_PREFIX_STATS := "stats:" |}.

Definition mixed_world : world :=
  {| kv := <["maintenance:incremental-state" := checkpoint_at "backup-subscribers" 0]>
             (kv (subscribers 2) ∪ kv (ratelimits 3));
     ticks := 0 |}.

Definition full_cleanup : option cleanup_results * world * list event :=
  runCleanup (H := steady) 1 cleanup_cfg mixed_world.

End Scenario.

(** ** Properties *)

(** *** The monad *)

Lemma bind_inv {A B} (m : M A) (k : A -> M B) w b w2 evs :
  bind m k w = (b, w2, evs) ->
  exists a w1 e1 e2, m w = (a, w1, e1) /\ k a w1 = (b, w2, e2) /\ evs = e1 ++ e2.
Proof.
  unfold bind. destruct (m w) as [[a w1] e1]. destruct (k a w1) as [[b' w2'] e2] eqn:Hk.
  intros [= <- <- <-]. now exists a, w1, e1, e2.
Qed.

Lemma emits_ret {A} P (a : A) : emits P (ret a).
Proof. intros w. constructor. Qed.

Lemma emits_bind {A B} P (m : M A) (k : A -> M B) :
  emits P m -> (forall a, emits P (k a)) -> emits P (bind m k).
Proof.
  intros Hm Hk w. unfold bind.
  specialize (Hm w). destruct (m w) as [[a w1] e1]. simpl in Hm.
  specialize (Hk a w1). destruct (k a w1) as [[b w2] e2]. simpl in *.
  apply Forall_app; auto.
Qed.

Lemma emits_emit P e : P e -> emits P (emit e).
Proof. intros He w. repeat constructor. exact He. Qed.

Section Primitives.
Context `{Host}.

Lemma emits_now P : emits P Date_now.
Proof. intros w. constructor. Qed.

Lemma emits_get P key : P (KVGet key) -> emits P (KV_get key).
Proof. intros He w. repeat constructor. exact He. Qed.

Lemma emits_put P key v : P (KVPut key v) -> emits P (KV_put key v).
Proof. intros He w. repeat constructor. exact He. Qed.

Lemma emits_delete P key : P (KVDelete key) -> emits P (KV_delete key).
Proof. intros He w. repeat constructor. exact He. Qed.

Lemma emits_list P prefix limit cur :
  (forall pg, P (KVList prefix limit cur pg)) -> emits P (KV_list prefix limit cur).
Proof. intros He w. repeat constructor. apply He. Qed.

End Primitives.

(** *** The sweep over one key *)

Section Cleanup.
Context `{Host}.

Lemma expired_stale now maxAge (m : gmap string string) key text :
  m !! key = Some text ->
  (str_truthy text && expired now maxAge text = true <-> stale now maxAge m key).
Proof.
  intros Hget. unfold stale, expired. split.
  - intros [Ht He]%andb_prop.
    destruct (JSON_parse text) as [data|] eqn:Hp; [|discriminate].
    destruct (record_timestamp data) as [ts|] eqn:Hr; [|discriminate].
    apply andb_prop in He as [Hts He].
    destruct (Date_getTime ts) as [t|] eqn:Hd; [|discriminate].
    apply Z.ltb_lt in He.
    exists text, data, ts, t. repeat split; auto; try lia.
    intros ->. discriminate.
  - intros (text' & data & ts & t & Hget' & Hne & Hp & Hr & Hts & Hd & Hage).
    rewrite Hget in Hget'. injection Hget' as <-.
    rewrite Hp, Hr, Hts, Hd. simpl.
    destruct text; [congruence|]. simpl. apply Z.ltb_lt. lia.
Qed.


End Cleanup.

(** *** The sweep-and-delete handler *)

Lemma filter_none {A} (f : A -> bool) (l : list A) :
  Forall (fun x => f x = false) l -> List.filter f l = [].
Proof.
  induction 1 as [|x l Hx _ IH]; simpl; [reflexivity|]. now rewrite Hx.
Qed.

Ltac invert_bind H :=
  let a := fresh "a" in let w := fresh "w" in
  let e1 := fresh "e" in let e2 := fresh "e" in
  let H1 := fresh "Hrun" in let He := fresh "Hevs" in
  apply bind_inv in H as (a & w & e1 & e2 & H1 & H & He).

Section CleanupHandler.
Context `{Host}.

Lemma emits_cleanup_key P now maxAge key :
  P (KVGet key) -> P (KVDelete key) -> emits P (cleanup_key now maxAge key).
Proof.
  intros Hg Hd. unfold cleanup_key. apply emits_bind; [now apply emits_get|].
  intros [v|]; [|apply emits_ret].
  destruct (str_truthy v && expired now maxAge v); [|apply emits_ret].
  apply emits_bind; [now apply emits_delete|]. intros _. apply emits_ret.
Qed.

Lemma emits_cleanup_keys P startTime maxTime now maxAge ks n :
  Forall (fun key => P (KVGet key) /\ P (KVDelete key)) ks ->
  emits P (cleanup_keys startTime maxTime now maxAge ks n).
Proof.
  intros Hks. revert n. induction Hks as [|key ks [Hg Hd] _ IH]; intros n; simpl.
  - apply emits_ret.
  - apply emits_bind; [apply emits_now|]. intros t.
    destruct (maxTime <? t - startTime); [apply emits_ret|].
    apply emits_bind; [now apply emits_cleanup_key|]. intros d. apply IH.
Qed.

Lemma cleanup_keys_no_list startTime maxTime now maxAge ks n w :
  List.filter is_list (cleanup_keys startTime maxTime now maxAge ks n w).2 = [].
Proof.
  apply filter_none.
  apply (emits_cleanup_keys (fun e => is_list e = false)).
  apply Forall_forall. intros; split; reflexivity.
Qed.



End CleanupHandler.

(** *** The archive builders *)

Section ArchiveBuilder.
Context `{Host}.

Lemma saveToGitHub_without_token cfg filename content w :
  from_option str_truthy false (GITHUB_TOKEN cfg) = false ->
  saveToGitHub cfg filename content w = (tt, w, [skip_warning]).
Proof. intros Ht. unfold saveToGitHub. now rewrite Ht. Qed.

Lemma saveToGitHub_with_token cfg filename content w :
  from_option str_truthy false (GITHUB_TOKEN cfg) = true ->
  saveToGitHub cfg filename content w =
    (tt, {| kv := kv w; ticks := S (S (ticks w)) |},
     [SinkUpsert (GITHUB_BACKUP_REPO cfg) (GITHUB_BACKUP_BRANCH cfg)
        ("backups/" +:+ before_T (Date_toISOString (clock (ticks w))) +:+ "-" +:+ filename)
        content
        ("Incremental backup - " +:+ filename +:+ " - "
           +:+ Date_toLocaleString (clock (S (ticks w))))]).
Proof. intros Ht. unfold saveToGitHub. now rewrite Ht. Qed.

Lemma emits_saveToGitHub P cfg filename content :
  P skip_warning ->
  (forall repo branch path c msg, P (SinkUpsert repo branch path c msg)) ->
  emits P (saveToGitHub cfg filename content).
Proof.
  intros Hw Hu. unfold saveToGitHub.
  destruct (negb _); [now apply emits_emit|].
  apply emits_bind; [apply emits_now|]. intros t.
  apply emits_bind; [apply emits_now|]. intros t'. now apply emits_emit.
Qed.

Lemma emits_archive_keys P b startTime maxTime ks csv n :
  Forall (fun key => P (KVGet key)) ks ->
  (forall v, P (KVPut (csvKey b) v)) ->
  emits P (archive_keys b startTime maxTime ks csv n).
Proof.
  intros Hks Hp. revert csv n. induction Hks as [|key ks Hg _ IH]; intros csv n; simpl.
  - apply emits_ret.
  - apply emits_bind; [apply emits_now|]. intros t.
    destruct (maxTime <? t - startTime).
    + apply emits_bind; [apply emits_put, Hp|]. intros _. apply emits_ret.
    + apply emits_bind.
      * unfold archive_key. apply emits_bind; [now apply emits_get|].
        intros d. apply emits_ret.
      * intros [line|]; apply IH.
Qed.

(** The calls of one archive step, by kind: it touches the store only at
    its buffer key and at the keys of the page it fetched. *)
Lemma emits_archive_step P cfg b st maxTime :
  P (KVGet (csvKey b)) ->
  (forall v, P (KVPut (csvKey b) v)) ->
  P (KVDelete (csvKey b)) ->
  (forall pg, P (KVList (partition b) 20 (cursor st) pg)) ->
  (forall m, Forall (fun key => P (KVGet key))
               (keys (kv_list m (partition b) 20 (cursor st)))) ->
  P skip_warning ->
  (forall repo branch path c msg, P (SinkUpsert repo branch path c msg)) ->
  emits P (archive_step cfg b st maxTime).
Proof.
  intros Hg Hp Hd Hl Hk Hw Hu. unfold archive_step.
  apply emits_bind; [apply emits_now|]. intros startTime.
  apply emits_bind; [now apply emits_get|]. intros stored.
  intros w. unfold bind. unfold KV_list at 1.
  specialize (Hk (kv w)).
  destruct (keys (kv_list (kv w) (partition b) 20 (cursor st))) as [|k0 ks] eqn:Hkeys.
  - match goal with
    | |- context [if ?c then _ else _] => destruct c
    end; simpl.
    + rewrite (surjective_pairing (saveToGitHub _ _ _ _)).
      rewrite (surjective_pairing (saveToGitHub _ _ _ _).1). simpl.
      constructor; [apply Hl|]. rewrite ?app_nil_r.
      apply Forall_app. split; [|repeat constructor; apply Hd].
      now apply emits_saveToGitHub.
    + repeat constructor. apply Hl.
  - pose proof (emits_archive_keys P b startTime maxTime (k0 :: ks)
                  (match stored with
                   | Some s => if str_truthy s then s else header b
                   | None => header b
                   end) 0 Hk Hp w) as Hloop.
    destruct (archive_keys _ _ _ _ _ _ w) as [[[[timed_out csv] n] w1] e1].
    simpl in Hloop. destruct timed_out; simpl.
    + constructor; [apply Hl|]. now rewrite ?app_nil_r.
    + destruct (list_complete _); simpl.
      * rewrite (surjective_pairing (saveToGitHub _ _ _ _)).
        rewrite (surjective_pairing (saveToGitHub _ _ _ _).1). simpl.
        constructor; [apply Hl|]. rewrite ?app_nil_r.
        apply Forall_app. split; [exact Hloop|].
        constructor; [apply Hp|].
        apply Forall_app. split; [|repeat constructor; apply Hd].
        now apply emits_saveToGitHub.
      * constructor; [apply Hl|]. rewrite ?app_nil_r.
        apply Forall_app. split; [exact Hloop|]. repeat constructor. apply Hp.
Qed.

End ArchiveBuilder.

(** *** Flushing on an empty page *)

Lemma app_cons c s t : String c s +:+ t = String c (s +:+ t).
Proof. reflexivity. Qed.

Lemma string_length_app s t :
  String.length (s +:+ t) = (String.length s + String.length t)%nat.
Proof.
  induction s as [|c s IH]; [reflexivity|]. rewrite app_cons. simpl. now rewrite IH.
Qed.

Section EmptyPage.
Context `{Host}.

Lemma subscriber_row_length cfg key data l :
  subscriber_row cfg key data = Some l -> (9 <= String.length l)%nat.
Proof.
  unfold subscriber_row. destruct (JSON_parse data) as [d|]; [|discriminate].
  destruct (js_prop d "ipAddress"); [|discriminate].
  destruct (js_prop d "timestamp"); [|discriminate].
  intros [= <-]. rewrite !string_length_app. simpl. lia.
Qed.

Lemma buffer_exceeds_threshold cfg b lines :
  b = subscribers_builder cfg \/ b = contacts_builder cfg ->
  lines <> [] -> built_by b lines ->
  str_truthy (header b +:+ concat_lines lines) = true /\
  (flush_above b <? String.length (header b +:+ concat_lines lines))%nat = true.
Proof.
  intros Hb Hne Hbuilt. split.
  - destruct Hb as [-> | ->]; reflexivity.
  - apply Nat.ltb_lt. rewrite string_length_app.
    destruct Hb as [-> | ->].
    + destruct Hbuilt as [|l rest (key & data & Hrow) _]; [congruence|].
      apply subscriber_row_length in Hrow.
      simpl concat_lines. rewrite string_length_app.
      change (String.length (header (subscribers_builder cfg))) with 27%nat.
      simpl flush_above. lia.
    + change (String.length (header (contacts_builder cfg))) with 57%nat.
      simpl flush_above. lia.
Qed.

(** C8.  When an archive builder fetches an empty page while its persisted
    buffer holds more than the header (the header followed by at least one
    formatted row), and the sink has its token, the handler uploads the
    buffer to the sink under the path [backups/<date>-<file name>] built
    from the current date, deletes the buffer, and reports
    [complete = true] with [count = 0]. *)
Theorem archive_flushes_on_empty_page (cfg : config) (b : builder) (st : state)
    (maxTime : Z) (w : world) (lines : list string) :
  b = subscribers_builder cfg \/ b = contacts_builder cfg ->
  from_option str_truthy false (GITHUB_TOKEN cfg) = true ->
  keys (kv_list (kv w) (partition b) 20 (cursor st)) = [] ->
  lines <> [] -> built_by b lines ->
  kv w !! csvKey b = Some (header b +:+ concat_lines lines) ->
  archive_step cfg b st maxTime w =
    ({| complete := true; res_cursor := None; count := 0 |},
     {| kv := delete (csvKey b) (kv w); ticks := S (S (S (ticks w))) |},
     [ KVGet (csvKey b);
       KVList (partition b) 20 (cursor st)
              (kv_list (kv w) (partition b) 20 (cursor st));
       SinkUpsert (GITHUB_BACKUP_REPO cfg) (GITHUB_BACKUP_BRANCH cfg)
         ("backups/" +:+ before_T (Date_toISOString (clock (S (ticks w))))
            +:+ "-" +:+ filename b)
         (header b +:+ concat_lines lines)
         ("Incremental backup - " +:+ filename b +:+ " - "
            +:+ Date_toLocaleString (clock (S (S (ticks w)))));
       KVDelete (csvKey b) ]).
Proof.
  intros Hb Htok Hpage Hne Hbuilt Hbuf.
  destruct (buffer_exceeds_threshold cfg b lines Hb Hne Hbuilt) as [Htruthy Hlong].
  unfold archive_step, bind, Date_now, KV_get, KV_list, KV_delete, ret. simpl.
  rewrite Hbuf, Htruthy, Hpage. simpl. rewrite Hlong, Htruthy. simpl.
  rewrite saveToGitHub_with_token by exact Htok. reflexivity.
Qed.

(** C2, as the code has it.  When [GITHUB_TOKEN] is not configured an
    archive step never calls the sink; and whenever it reaches a flush,
    which it announces by the warning, it reports [complete = true] and
    the buffer is gone from the keyed store afterwards: the accumulated
    rows are not retained. *)
Theorem archive_without_token_drops_buffer (cfg : config) (b : builder) (st : state)
    (maxTime : Z) (w : world) :
  from_option str_truthy false (GITHUB_TOKEN cfg) = false ->
  let '(r, w', evs) := archive_step cfg b st maxTime w in
  tally is_upsert evs = 0%nat /\
  (In skip_warning evs -> complete r = true /\ kv w' !! csvKey b = None).
Proof.
  intros Htok.
  unfold archive_step, bind, Date_now, KV_get, KV_list, KV_delete, KV_put, ret. simpl.
  set (buf := match kv w !! csvKey b with
              | Some s => if str_truthy s then s else header b
              | None => header b
              end).
  destruct (keys (kv_list (kv w) (partition b) 20 (cursor st))) as [|k0 ks] eqn:Hkeys.
  - destruct (str_truthy buf && _); simpl.
    + rewrite saveToGitHub_without_token by exact Htok. simpl.
      split; [reflexivity|]. intros _. split; [reflexivity|]. apply lookup_delete_eq.
    + split; [reflexivity|]. intros [Hin|[Hin|[]]]; discriminate.
  - pose proof (emits_archive_keys (fun e => is_upsert e = false /\ e <> skip_warning)
                  b (clock (ticks w)) maxTime (k0 :: ks) buf 0) as Hloop.
    specialize (Hloop ltac:(apply Forall_forall; intros; split; [reflexivity|discriminate])
                      ltac:(intros; split; [reflexivity|discriminate])
                      {| kv := kv w; ticks := S (ticks w) |}).
    destruct (archive_keys _ _ _ _ _ _ _) as [[[[timed_out csv] n] w1] e1].
    simpl in Hloop.
    assert (Hnu : tally is_upsert e1 = 0%nat).
    { unfold tally. rewrite filter_none; [reflexivity|].
      eapply Forall_impl; [exact Hloop|]. now intros e [? _]. }
    assert (Hnw : ~ In skip_warning e1).
    { intros Hin. rewrite Forall_forall in Hloop.
      apply list_elem_of_In in Hin. now destruct (Hloop _ Hin) as [_ []]. }
    unfold tally in *. destruct timed_out; simpl.
    + rewrite ?app_nil_r. split; [exact Hnu|].
      intros [Hin|[Hin|Hin]]; try discriminate. contradiction.
    + destruct (list_complete _); simpl.
      * rewrite saveToGitHub_without_token by exact Htok. simpl.
        split.
        -- rewrite ?List.filter_app, ?length_app, ?Hnu. reflexivity.
        -- intros _. split; [reflexivity|]. apply lookup_delete_eq.
      * rewrite ?app_nil_r. split.
        -- rewrite ?List.filter_app, ?length_app, ?Hnu. reflexivity.
        -- intros [Hin|[Hin|Hin]]; try discriminate.
           apply in_app_or in Hin as [Hin|[Hin|[]]]; [contradiction|discriminate].
Qed.

End EmptyPage.

(** *** The scheduler *)

Section Scheduler.
Context `{Host}.

Lemma load_state_spec cfg w :
  load_state cfg w =
    match stored_checkpoint cfg (kv w) with
    | Some l => (l, w, [KVGet (stateKey cfg)])
    | None => (LState (fresh_state (clock (ticks w))), tick w, [KVGet (stateKey cfg)])
    end.
Proof.
  unfold load_state, stored_checkpoint, bind, KV_get, Date_now, ret, tick, fresh_state.
  destruct (kv w !! stateKey cfg) as [text|]; [|reflexivity].
  destruct (str_truthy text); reflexivity.
Qed.

(** What one invocation does, by the checkpoint it loads and the report of
    the handler it dispatches to. *)
Lemma run_unfold cfg w :
  runIncrementalMaintenance cfg w =
    let '(l, w1) := loaded_checkpoint cfg w in
    match l with
    | LThrown => (Thrown, w1, [KVGet (stateKey cfg)])
    | LUnmodelled => (Unmodelled, w1, [KVGet (stateKey cfg)])
    | LState st =>
        match handler_of (phase st) with
        | None => continued cfg st st w1 []
        | Some h =>
            let '(r, w2, e2) := h cfg st (budget w w1) (tick w1) in
            match next_phase (phase st) with
            | None =>
                if complete r then completed cfg st w2 e2
                else continued cfg (next_state st (phase st) r) st w2 e2
            | Some next => continued cfg (next_state st next r) st w2 e2
            end
        end
    end.
Proof.
  unfold runIncrementalMaintenance. unfold bind at 1. unfold Date_now at 1.
  fold (tick w). unfold bind at 1. rewrite load_state_spec.
  unfold loaded_checkpoint. change (kv (tick w)) with (kv w).
  change (clock (ticks (tick w))) with (clock (S (ticks w))).
  destruct (stored_checkpoint cfg (kv w)) as [l|].
  all: try destruct l as [st| |]; try reflexivity.
  all: unfold handler_of, next_phase, continued, completed, budget.
  all: match goal with |- context [String.eqb (phase ?s) "cleanup"] => set (st0 := s) end.
  all: destruct (String.eqb (phase st0) "cleanup");
    [|destruct (String.eqb (phase st0) "backup-subscribers");
      [|destruct (String.eqb (phase st0) "backup-contacts")]].
  all: unfold bind, emit, Date_now, ret, tick; simpl.
  all: try match goal with
       | |- context [match ?x with pair _ _ => _ end] =>
           destruct x as [[r w2] e2]; unfold next_state; destruct (complete r); simpl
       end.
  all: rewrite ?app_nil_r; try reflexivity.
Qed.

Lemma completionKey_not_stateKey cfg : completionKey cfg <> stateKey cfg.
Proof. unfold completionKey, stateKey. intros Heq%(inj (String.app _)). discriminate. Qed.

Lemma handler_of_phase ph h :
  handler_of ph = Some h ->
  (ph = "cleanup" /\ h = cleanupIncremental /\ next_phase ph = Some "backup-subscribers") \/
  (ph = "backup-subscribers" /\ h = backupSubscribersIncremental /\
     next_phase ph = Some "backup-contacts") \/
  (ph = "backup-contacts" /\ h = backupContactsIncremental /\ next_phase ph = None).
Proof.
  unfold handler_of, next_phase.
  destruct (String.eqb_spec ph "cleanup") as [->|_].
  { intros [= <-]. left. auto. }
  destruct (String.eqb_spec ph "backup-subscribers") as [->|_].
  { intros [= <-]. right. left. auto. }
  destruct (String.eqb_spec ph "backup-contacts") as [->|_]; [|discriminate].
  intros [= <-]. right. right. auto.
Qed.



(** **** Which calls the handlers make *)

Lemma emits_cleanup_prefixes P startTime maxTime now cur ps n :
  (forall m p, In p ps ->
     Forall (fun key => P (KVGet key) /\ P (KVDelete key)) (keys (kv_list m p.1 5 cur))) ->
  (forall prefix pg, P (KVList prefix 5 cur pg)) ->
  emits P (cleanup_prefixes startTime maxTime now cur ps n).
Proof.
  intros Hk Hl. revert n. induction ps as [|[prefix maxAge] rest IH]; intros n; simpl.
  - apply emits_ret.
  - apply emits_bind; [apply emits_now|]. intros t.
    destruct (maxTime <? t - startTime); [apply emits_ret|].
    assert (IH' : forall n', emits P (cleanup_prefixes startTime maxTime now cur rest n')).
    { apply IH. intros m p Hin. apply Hk. now right. }
    intros w. unfold bind. unfold KV_list at 1.
    pose proof (Hk (kv w) (prefix, maxAge) (or_introl eq_refl)) as Hpage. simpl in Hpage.
    destruct (keys (kv_list (kv w) prefix 5 cur)) as [|k0 ks] eqn:Hkeys.
    + specialize (IH' n w). destruct (cleanup_prefixes _ _ _ _ _ _ w) as [[r w'] e].
      simpl in *. constructor; [apply Hl|exact IH'].
    + pose proof (emits_cleanup_keys P startTime maxTime now maxAge (k0 :: ks) n Hpage w)
        as Hloop.
      destruct (cleanup_keys _ _ _ _ _ _ w) as [[[timed_out n'] w1] e1]. simpl in Hloop.
      destruct timed_out; simpl.
      { constructor; [apply Hl|]. now rewrite ?app_nil_r. }
      destruct (list_complete _); simpl.
      * specialize (IH' n' w1). destruct (cleanup_prefixes _ _ _ _ _ _ w1) as [[r w'] e].
        simpl in *. constructor; [apply Hl|]. apply Forall_app. auto.
      * constructor; [apply Hl|]. now rewrite ?app_nil_r.
Qed.

Lemma emits_cleanupIncremental P cfg st maxTime :
  (forall m p, In p (prefixesToClean cfg) ->
     Forall (fun key => P (KVGet key) /\ P (KVDelete key))
            (keys (kv_list m p.1 5 (cursor st)))) ->
  (forall prefix pg, P (KVList prefix 5 (cursor st) pg)) ->
  emits P (cleanupIncremental cfg st maxTime).
Proof.
  intros Hk Hl. unfold cleanupIncremental.
  apply emits_bind; [apply emits_now|]. intros startTime.
  apply emits_bind; [apply emits_now|]. intros now.
  now apply emits_cleanup_prefixes.
Qed.

(** No handler prints the phase line. *)
Lemma handler_no_log ph h cfg st maxTime :
  handler_of ph = Some h -> emits (fun e => is_log e = false) (h cfg st maxTime).
Proof.
  intros Hh. apply handler_of_phase in Hh as [(_ & -> & _)|[(_ & -> & _)|(_ & -> & _)]].
  - apply emits_cleanupIncremental; [|reflexivity].
    intros m p _. apply Forall_forall. intros; split; reflexivity.
  - apply emits_archive_step; try reflexivity.
    intros m. apply Forall_forall. reflexivity.
  - apply emits_archive_step; try reflexivity.
    intros m. apply Forall_forall. reflexivity.
Qed.




Lemma tally_app f l1 l2 : tally f (l1 ++ l2) = (tally f l1 + tally f l2)%nat.
Proof. unfold tally. now rewrite List.filter_app, length_app. Qed.




(** **** The order of the phases *)

Lemma phases_logged_app l1 l2 :
  phases_logged (l1 ++ l2) = phases_logged l1 ++ phases_logged l2.
Proof.
  induction l1 as [|e l1 IH]; [reflexivity|]. destruct e; simpl; now rewrite IH.
Qed.

Lemma phases_logged_none l :
  Forall (fun e => is_log e = false) l -> phases_logged l = [].
Proof.
  induction 1 as [|e l He _ IH]; [reflexivity|]. destruct e; try discriminate; exact IH.
Qed.

Lemma pending_after_put cfg st (m : gmap string string) :
  checkpoint_codec ->
  pending_phase cfg (<[stateKey cfg := JSON_stringify (json_of_state st)]> m)
    = Some (phase st).
Proof.
  intros Hcodec. destruct (Hcodec st) as (Htruthy & j & Hparse & Hstate).
  unfold pending_phase, stored_checkpoint.
  now rewrite lookup_insert_eq, Htruthy, Hparse, Hstate.
Qed.

Lemma pending_loaded cfg w p :
  pending_phase cfg (kv w) = Some p ->
  exists st w1, loaded_checkpoint cfg w = (LState st, w1) /\ phase st = p.
Proof.
  unfold pending_phase, loaded_checkpoint.
  destruct (stored_checkpoint cfg (kv w)) as [[st| |]|]; try discriminate.
  - intros [= <-]. now exists st, (tick w).
  - intros [= <-]. eexists _, _. split; reflexivity.
Qed.

(** One invocation from a store whose pending phase [p] is one of the three
    phases: it dispatches to [p] and to nothing else, and the phase pending
    afterwards is again one of the three and may follow [p]. *)
Lemma invocation_phase cfg w p h :
  checkpoint_codec ->
  pending_phase cfg (kv w) = Some p -> handler_of p = Some h ->
  let '(_, w', evs) := runIncrementalMaintenance cfg w in
  phases_logged evs = [p] /\
  exists q, pending_phase cfg (kv w') = Some q /\ follows p q /\
            handler_of q <> None.
Proof.
  intros Hcodec Hpend Hh.
  destruct (pending_loaded cfg w p Hpend) as (st & w1 & Hload & Hph). subst p.
  rewrite run_unfold, Hload, Hh.
  pose proof (handler_no_log _ _ cfg st (budget w w1) Hh (tick w1)) as He.
  destruct (h cfg st (budget w w1) (tick w1)) as [[r w2] e2]. simpl in He.
  apply phases_logged_none in He.
  assert (Hcont : forall st',
    follows (phase st) (phase st') -> handler_of (phase st') <> None ->
    let '(_, w', evs) := continued cfg st' st w2 e2 in
    phases_logged evs = [phase st] /\
    exists q, pending_phase cfg (kv w') = Some q /\ follows (phase st) q /\
              handler_of q <> None).
  { intros st' Hf Hk. unfold continued. split.
    - simpl. now rewrite phases_logged_app, He.
    - exists (phase st'). split; [|auto]. simpl. now apply pending_after_put. }
  assert (Hsame : forall r', complete r' = false -> forall next,
    phase (next_state st next r') = phase st).
  { intros r' Hr next. unfold next_state. now rewrite Hr. }
  assert (Hnext : forall r', complete r' = true -> forall next,
    phase (next_state st next r') = next).
  { intros r' Hr next. unfold next_state. now rewrite Hr. }
  apply handler_of_phase in Hh as Hcases.
  destruct (next_phase (phase st)) as [next|] eqn:Hn.
  - apply Hcont; destruct (complete r) eqn:Hc.
    + rewrite Hnext by exact Hc. right. left. exact Hn.
    + rewrite Hsame by exact Hc. now left.
    + rewrite Hnext by exact Hc.
      destruct Hcases as [(_ & _ & Hn')|[(_ & _ & Hn')|(_ & _ & Hn')]];
        inversion Hn'; discriminate.
    + rewrite Hsame by exact Hc. congruence.
  - destruct (complete r) eqn:Hc.
    + unfold completed. split.
      * simpl. now rewrite phases_logged_app, He.
      * exists "cleanup". split; [|split; [|discriminate]].
        -- unfold pending_phase, stored_checkpoint. simpl.
           rewrite lookup_insert_ne by apply completionKey_not_stateKey.
           now rewrite lookup_delete_eq.
        -- right. right. split; [|reflexivity].
           destruct Hcases as [(_ & _ & Hn')|[(_ & _ & Hn')|(Hp & _)]];
             [discriminate..|exact Hp].
    + apply Hcont; rewrite Hsame by exact Hc; [now left|congruence].
Qed.

Lemma chain_cons p l :
  match l with [] => True | q :: _ => follows p q end -> chain l -> chain (p :: l).
Proof. destruct l; simpl; auto. Qed.

Lemma invocations_chain cfg n :
  checkpoint_codec ->
  forall w p h,
    pending_phase cfg (kv w) = Some p -> handler_of p = Some h ->
    let l := phases_logged (invocations n cfg w).2 in
    match l with [] => True | q :: _ => q = p end /\ chain l.
Proof.
  intros Hcodec. induction n as [|n IH]; intros w p h Hpend Hh; simpl.
  - split; exact I.
  - unfold bind.
    pose proof (invocation_phase cfg w p h Hcodec Hpend Hh) as Hstep.
    destruct (runIncrementalMaintenance cfg w) as [[o w'] evs].
    destruct Hstep as (Hlog & q & Hq & Hf & Hk).
    destruct (handler_of q) as [h'|] eqn:Hh'; [|congruence].
    specialize (IH w' q h' Hq Hh').
    destruct (invocations n cfg w') as [[os w''] evs']. simpl in *.
    rewrite app_nil_r, phases_logged_app, Hlog. simpl.
    destruct IH as [Hhead Hchain]. split; [reflexivity|].
    apply chain_cons; [|exact Hchain].
    destruct (phases_logged evs'); [exact I|]. now subst.
Qed.

(** C5.  In every sequence of invocations that starts without a checkpoint
    the phases are dispatched in the fixed order: the first is cleanup, and
    each invocation runs the phase of the one before it, or the phase next
    to it in the order cleanup, backup-subscribers, backup-contacts, or
    cleanup again once backup-contacts has finished the cycle.  No phase is
    skipped and none is run again within a cycle.  (The checkpoint is read
    back as it was written.) *)
Theorem phases_run_in_fixed_order (cfg : config) (n : nat) (w : world) :
  checkpoint_codec ->
  kv w !! stateKey cfg = None ->
  let '(_, _, evs) := invocations n cfg w in
  phase_order (phases_logged evs).
Proof.
  intros Hcodec Habsent.
  assert (Hpend : pending_phase cfg (kv w) = Some "cleanup").
  { unfold pending_phase, stored_checkpoint. now rewrite Habsent. }
  pose proof (invocations_chain cfg n Hcodec w "cleanup" cleanupIncremental Hpend eq_refl)
    as Hinv.
  destruct (invocations n cfg w) as [[os w'] evs]. simpl in Hinv.
  unfold phase_order. destruct (phases_logged evs); [exact I|]. exact Hinv.
Qed.

End Scheduler.

(** *** The simulated host keeps its promises *)

Section SimulatedHost.
Import Sim.

Lemma app_nil s : EmptyString +:+ s = s.
Proof. reflexivity. Qed.

Lemma parse_string_body_escape s rest :
  parse_string_body (escape s +:+ String dquote rest) = Some (s, rest).
Proof.
  induction s as [|c s IH].
  - reflexivity.
  - simpl escape.
    destruct (Ascii.eqb c dquote) eqn:Hq; [|destruct (Ascii.eqb c backslash) eqn:Hb]; simpl orb; cbv iota.
    + rewrite !app_cons. apply Ascii.eqb_eq in Hq. subst c.
      simpl. rewrite IH. reflexivity.
    + rewrite !app_cons. apply Ascii.eqb_eq in Hb. subst c.
      simpl. rewrite IH. reflexivity.
    + rewrite !app_cons. simpl. rewrite Hq, Hb, IH. reflexivity.
Qed.

Lemma parse_digits_print u rest :
  no_digit_ahead rest ->
  parse_digits (NilEmpty.string_of_uint u +:+ rest) = (u, rest).
Proof.
  intros Hrest. induction u; simpl NilEmpty.string_of_uint;
    rewrite ?app_cons; try (simpl; rewrite IHu; reflexivity).
  rewrite app_nil. destruct rest as [|c r]; [reflexivity|].
  simpl in *. now rewrite Hrest.
Qed.

Lemma parse_number_pos u rest :
  u <> Nil -> no_digit_ahead rest ->
  parse_number (NilEmpty.string_of_uint u +:+ rest) = Some (Z.of_int (Pos u), rest).
Proof.
  intros Hu Hrest.
  destruct u; [congruence|..]; simpl NilEmpty.string_of_uint; rewrite app_cons;
    unfold parse_number; cbn [parse_digits digit_of];
    rewrite (parse_digits_print _ _ Hrest); reflexivity.
Qed.

Lemma parse_number_neg u rest :
  u <> Nil -> no_digit_ahead rest ->
  parse_number (String "-" (NilEmpty.string_of_uint u +:+ rest))
    = Some (Z.of_int (Neg u), rest).
Proof.
  intros Hu Hrest. unfold parse_number.
  rewrite (parse_digits_print _ _ Hrest). destruct u; congruence.
Qed.

Lemma parse_number_print n rest :
  no_digit_ahead rest ->
  parse_number (string_of_Z n +:+ rest) = Some (n, rest).
Proof.
  intros Hrest. unfold string_of_Z.
  rewrite <- (DecimalZ.of_to n) at 2.
  destruct n as [|p|p]; simpl Z.to_int; unfold NilZero.string_of_int, NilZero.string_of_uint.
  - exact (parse_number_pos (D0 Nil) rest ltac:(discriminate) Hrest).
  - pose proof (Unsigned.to_uint_nonnil p) as Hnn.
    rewrite <- parse_number_pos by assumption.
    destruct (Pos.to_uint p); congruence.
  - pose proof (Unsigned.to_uint_nonnil p) as Hnn.
    rewrite app_cons.
    rewrite <- parse_number_neg by assumption.
    destruct (Pos.to_uint p); congruence.
Qed.

Lemma string_app_assoc s t u : (s +:+ t) +:+ u = s +:+ t +:+ u.
Proof. induction s as [|c s IH]; [reflexivity|]. rewrite !app_cons. now rewrite IH. Qed.

Ltac norm_str :=
  repeat (rewrite string_app_assoc || rewrite app_cons || rewrite app_nil).

Lemma parse_value_string s rest k :
  parse_value (S k) (print_string s +:+ rest) = Some (JStr s, rest).
Proof.
  unfold print_string. norm_str.
  change (parse_value (S k) (String dquote ?x)) with
    (match parse_string_body x with Some (y, r) => Some (JStr y, r) | None => None end).
  now rewrite parse_string_body_escape.
Qed.

Lemma parse_value_null rest k :
  parse_value (S k) (String "n" (String "u" (String "l" (String "l" rest))))
    = Some (JNull, rest).
Proof. reflexivity. Qed.

Lemma parse_value_number n rest k :
  no_digit_ahead rest ->
  parse_value (S k) (string_of_Z n +:+ rest) = Some (JNum n, rest).
Proof.
  intros Hrest. pose proof (parse_number_print n rest Hrest) as Hnum.
  unfold string_of_Z in *.
  destruct n as [|p|p]; simpl Z.to_int in *;
    unfold NilZero.string_of_int, NilZero.string_of_uint in *.
  - change (parse_value (S k) (?x +:+ rest)) with
      (match parse_number (x +:+ rest) with
       | Some (n, r) => Some (JNum n, r) | None => None end).
    now rewrite Hnum.
  - pose proof (Unsigned.to_uint_nonnil p) as Hnn.
    destruct (Pos.to_uint p); try congruence;
      simpl NilEmpty.string_of_uint in *; rewrite app_cons in *;
      match goal with |- parse_value (S k) ?str = _ =>
        change (parse_value (S k) str) with
          (match parse_number str with
           | Some (n, r) => Some (JNum n, r) | None => None end)
      end; now rewrite Hnum.
  - rewrite app_cons in *.
    match goal with |- parse_value (S k) ?str = _ =>
        change (parse_value (S k) str) with
          (match parse_number str with
           | Some (n, r) => Some (JNum n, r) | None => None end)
    end. now rewrite Hnum.
Qed.

Lemma parse_members_more f k x v sep rest :
  parse_value f (x +:+ String sep rest) = Some (v, String sep rest) ->
  parse_members (S f) (print_member k x +:+ String sep rest) =
    if Ascii.eqb sep ","
    then match parse_members f rest with
         | Some (fs, r) => Some ((k, v) :: fs, r)
         | None => None
         end
    else if Ascii.eqb sep "}" then Some ([(k, v)], rest) else None.
Proof.
  intros Hv. unfold print_member, print_string. norm_str.
  change (parse_members (S f) (String dquote ?s)) with
    (match parse_string_body s with
     | Some (k, String ":" r) =>
         match parse_value f r with
         | Some (x, String "," r') =>
             match parse_members f r' with
             | Some (fs, r'') => Some ((k, x) :: fs, r'')
             | None => None
             end
         | Some (x, String "}" r') => Some ([(k, x)], r')
         | _ => None
         end
     | _ => None
     end).
  rewrite parse_string_body_escape, Hv.
  destruct (Ascii.eqb_spec sep ",") as [->|Hc]; [reflexivity|].
  destruct (Ascii.eqb_spec sep "}") as [->|Hb]; [reflexivity|].
  destruct sep as [[] [] [] [] [] [] [] []]; try reflexivity; congruence.
Qed.

Lemma parse_value_object f k0 x rest :
  parse_value (S f) (String "{" (print_member k0 x +:+ rest)) =
    match parse_members f (print_member k0 x +:+ rest) with
    | Some (fs, r) => Some (JObj fs, r)
    | None => None
    end.
Proof. reflexivity. Qed.

Lemma state_roundtrip st :
  parse (print (json_of_state st)) = Some (json_of_state st).
Proof.
  unfold parse.
  set (fuel := (2 * String.length (print (json_of_state st)) + 2)%nat).
  assert (exists k, fuel = S (S (S (S (S (S k)))))) as [k ->].
  { exists (fuel - 6)%nat. subst fuel. destruct st as [ph [c|] n t];
    unfold json_of_state; simpl print;
    unfold print_member, print_string; rewrite ?app_cons; cbn [String.length]; lia. }
  destruct st as [ph [c|] n t]; unfold json_of_state; simpl print.
  all: norm_str; rewrite parse_value_object.
  all: rewrite (parse_members_more _ _ _ (JStr ph)) by apply parse_value_string.
  all: cbn [Ascii.eqb Bool.eqb].
  - rewrite (parse_members_more _ _ _ (JStr c)) by apply parse_value_string.
    cbn [Ascii.eqb Bool.eqb].
    rewrite (parse_members_more _ _ _ (JNum n)) by (now apply parse_value_number).
    cbn [Ascii.eqb Bool.eqb].
    rewrite (parse_members_more _ _ _ (JStr t)) by apply parse_value_string.
    reflexivity.
  - rewrite (parse_members_more _ _ _ JNull) by reflexivity.
    cbn [Ascii.eqb Bool.eqb].
    rewrite (parse_members_more _ _ _ (JNum n)) by (now apply parse_value_number).
    cbn [Ascii.eqb Bool.eqb].
    rewrite (parse_members_more _ _ _ (JStr t)) by apply parse_value_string.
    reflexivity.
Qed.

Lemma state_of_json_of_state st : state_of_json (json_of_state st) = Some st.
Proof. destruct st as [ph [c|] n t]; reflexivity. Qed.

Lemma print_state_truthy st : str_truthy (print (json_of_state st)) = true.
Proof. reflexivity. Qed.

Lemma sim_codec clk : checkpoint_codec (H := Sim.host clk).
Proof.
  intros st. split; [apply print_state_truthy|].
  exists (json_of_state st). split; [apply state_roundtrip|apply state_of_json_of_state].
Qed.



End SimulatedHost.

(** *** Scenarios on the simulated host *)

Lemma triple_eta {A B C} (x : A * B * C) : x = (x.1.1, x.1.2, x.2).
Proof. now destruct x as [[a b] c]. Qed.

(** Twelve subscribers fit in one page: a single step buffers the twelve
    rows, uploads the file and reports completion. *)
Example twelve_subscribers_in_one_step :
  (backupSubscribersIncremental (H := Sim.steady) Sim.cfg Sim.checkpoint0 8
     (Sim.subscribers 12)).1.1
  = {| complete := true; res_cursor := None; count := 12 |}.
Proof. vm_compute. reflexivity. Qed.


(** Witness of C5: six invocations over a store of 21 subscribers, the
    second of them interrupted. *)
Lemma phase_order_witness :
  checkpoint_codec (H := Sim.delayed 13) /\
  kv (Sim.subscribers 21) !! stateKey Sim.cfg = None /\
  let '(_, _, evs) := invocations (H := Sim.delayed 13) 6 Sim.cfg (Sim.subscribers 21) in
  phase_order (phases_logged evs).
Proof.
  split; [apply sim_codec|]. split; [reflexivity|].
  apply (phases_run_in_fixed_order (H := Sim.delayed 13) Sim.cfg 6 (Sim.subscribers 21)).
  - apply sim_codec.
  - reflexivity.
Defined.



(** Witness of C8: the subscribers step on [buffered_world]. *)
Lemma archive_flush_witness :
  from_option str_truthy false (GITHUB_TOKEN Sim.cfg) = true /\
  keys (Sim.list_keys (kv Sim.buffered_world) "subscriber:" 20 None) = [] /\
  built_by (subscribers_builder (H := Sim.steady) Sim.cfg) [Sim.subscriber_line 1] /\
  kv Sim.buffered_world !! "maintenance:backup-csv-subscribers"
    = Some (("email,ip_address,timestamp" +:+ nl) +:+ Sim.subscriber_line 1) /\
  Scenario.flush_step =
    ({| complete := true; res_cursor := None; count := 0 |},
     {| kv := ∅; ticks := 3 |},
     [ KVGet "maintenance:backup-csv-subscribers";
       KVList "subscriber:" 20 None
         {| keys := []; page_cursor := None; list_complete := true |};
       SinkUpsert "site-backups" "main" "backups/2023-11-15-subscribers-backup.csv"
         (("email,ip_address,timestamp" +:+ nl) +:+ Sim.subscriber_line 1)
         "Incremental backup - subscribers-backup.csv - 2023-11-15T00:00:00.000Z";
       KVDelete "maintenance:backup-csv-subscribers" ]).
Proof.
  assert (Hbuilt : built_by (subscribers_builder (H := Sim.steady) Sim.cfg)
                     [Sim.subscriber_line 1]).
  { constructor; [|constructor].
    exists (Sim.subscriber_key 1), Sim.subscriber_value. vm_compute. reflexivity. }
  repeat (split; [first [exact Hbuilt | vm_compute; reflexivity]|]).
  etrans; [|etrans].
  2: exact (archive_flushes_on_empty_page (H := Sim.steady) Sim.cfg
              (subscribers_builder (H := Sim.steady) Sim.cfg) Sim.checkpoint0 8
              Sim.buffered_world [Sim.subscriber_line 1]
              (or_introl eq_refl) eq_refl eq_refl ltac:(discriminate) Hbuilt
              ltac:(vm_compute; reflexivity)).
  - reflexivity.
  - vm_compute. reflexivity.
Defined.

(** Witness of the amended C2: the same step without the token. *)
Lemma archive_without_token_witness :
  from_option str_truthy false (GITHUB_TOKEN Sim.cfg_without_token) = false /\
  let '(r, w', evs) := Scenario.skipped_flush in
  tally is_upsert evs = 0%nat /\
  (In skip_warning evs ->
   complete r = true /\
   kv w' !! csvKey (subscribers_builder (H := Sim.steady) Sim.cfg_without_token) = None).
Proof.
  split; [reflexivity|].
  exact (archive_without_token_drops_buffer (H := Sim.steady) Sim.cfg_without_token
           (subscribers_builder (H := Sim.steady) Sim.cfg_without_token)
           Sim.checkpoint0 8 Sim.buffered_world eq_refl).
Defined.

(** C2 as the specification states it fails: without the token, the step
    on [buffered_world] warns that it skips the upload and then deletes the
    buffer, whose rows are lost to a later flush. *)
Lemma buffer_not_retained_without_token :
  ~ retains_buffer (H := Sim.steady) Sim.cfg_without_token
      (subscribers_builder (H := Sim.steady) Sim.cfg_without_token)
      Sim.checkpoint0 8 Sim.buffered_world.
Proof.
  unfold retains_buffer. intros Hclaim. specialize (Hclaim eq_refl).
  change (archive_step Sim.cfg_without_token
            (subscribers_builder (H := Sim.steady) Sim.cfg_without_token)
            Sim.checkpoint0 8 Sim.buffered_world)
    with Scenario.skipped_flush in Hclaim.
  assert (Hrun : Scenario.skipped_flush =
            ({| complete := true; res_cursor := None; count := 0 |},
             {| kv := ∅; ticks := 1 |},
             [ KVGet "maintenance:backup-csv-subscribers";
               KVList "subscriber:" 20 None
                 {| keys := []; page_cursor := None; list_complete := true |};
               skip_warning;
               KVDelete "maintenance:backup-csv-subscribers" ]))
    by (vm_compute; reflexivity).
  rewrite Hrun in Hclaim. apply Hclaim.
  - right. right. left. reflexivity.
  - reflexivity.
Qed.


(** *** Interrupted pages *)

(** C4 fails on the code.  Two subscribers, one page; the second
    invocation meets the time limit after the first key, persists the
    header and the row of subscriber 1, and hands back the cursor of the
    page, which the last page does not have (the checkpoint it saves has a
    null cursor).  The next invocation therefore lists the page again from
    its start and appends the row of subscriber 1 a second time: the
    uploaded file holds it twice. *)
Theorem interrupted_page_repeats_rows :
  Scenario.short_cycle.1.1 =
    [ Returned (Continue "backup-subscribers" 0);
      Returned (Continue "backup-subscribers" 1);
      Returned (Continue "backup-contacts" 0) ] /\
  puts_to "maintenance:incremental-state" Scenario.short_cycle.2 =
    [ Sim.checkpoint_at "backup-subscribers" 0;
      Sim.checkpoint_at "backup-subscribers" 1;
      Sim.checkpoint_at "backup-contacts" 0 ] /\
  puts_to "maintenance:backup-csv-subscribers" Scenario.short_cycle.2 =
    [ ("email,ip_address,timestamp" +:+ nl) +:+ Sim.subscriber_line 1;
      ("email,ip_address,timestamp" +:+ nl) +:+ Sim.subscriber_line 1
        +:+ Sim.subscriber_line 1 +:+ Sim.subscriber_line 2 ] /\
  uploads Scenario.short_cycle.2 =
    [ ("backups/2023-11-15-subscribers-backup.csv",
       ("email,ip_address,timestamp" +:+ nl) +:+ Sim.subscriber_line 1
         +:+ Sim.subscriber_line 1 +:+ Sim.subscriber_line 2) ].
Proof.
  split; [|split; [|split]]; vm_compute; reflexivity.
Qed.

(** C1 fails on the code.  (a) 21 subscribers, two pages; the second
    invocation meets the time limit after the first key of the first page
    and hands back the cursor of the next page, so the 19 keys left on the
    first page are never visited: the cycle completes, the uploaded file
    holds subscribers 1 and 21 only, and the record of subscriber 2 is
    still in the store.  (b) The same happens to the sweep: of six stale
    rate-limit records the completed cycle has deleted the first and the
    last, and records 2 to 5, two days old against a limit of one day, are
    still in the store. *)
Theorem interrupted_page_skips_records :
  (last Scenario.long_cycle.1.1 = Some (Returned Complete) /\
   uploads Scenario.long_cycle.2 =
     [ ("backups/2023-11-15-subscribers-backup.csv",
        ("email,ip_address,timestamp" +:+ nl) +:+ Sim.subscriber_line 1
          +:+ Sim.subscriber_line 21);
       ("backups/2023-11-15-contacts-backup.csv",
        "email,name,phone,message,subscribed,ip_address,timestamp" +:+ nl) ] /\
   kv (Sim.subscribers 21) !! Sim.subscriber_key 2 = Some Sim.subscriber_value /\
   kv Scenario.long_cycle.1.2 !! Sim.subscriber_key 2 = Some Sim.subscriber_value) /\
  (last Scenario.sweep_cycle.1.1 = Some (Returned Complete) /\
   expired (H := Sim.delayed 7) Sim.t0 (24 * 60 * 60 * 1000) Sim.ratelimit_value = true /\
   (fun i => kv Scenario.sweep_cycle.1.2 !! Sim.ratelimit_key i) <$> [1; 2; 3; 4; 5; 6]%nat
     = [ None; Some Sim.ratelimit_value; Some Sim.ratelimit_value;
         Some Sim.ratelimit_value; Some Sim.ratelimit_value; None ]).
Proof.
  split; [split; [|split; [|split]]|split; [|split]]; vm_compute; reflexivity.
Qed.

(** ** What a step does to the store *)

Section SweepEffects.
Context `{Host}.

Lemma stale_lookup now maxAge (m m' : gmap string string) key :
  m' !! key = m !! key -> stale now maxAge m key -> stale now maxAge m' key.
Proof.
  intros Heq (text & data & ts & t & Hget & Hrest).
  exists text, data, ts, t. split; [congruence|exact Hrest].
Qed.

Lemma stale_present now maxAge (m : gmap string string) key :
  stale now maxAge m key -> m !! key <> None.
Proof. intros (text & ? & ? & ? & Hget & _). congruence. Qed.

Lemma cleanup_key_effect now maxAge key w :
  let '(deleted, w', evs) := cleanup_key now maxAge key w in
  (if deleted then stale now maxAge (kv w) key /\ kv w' = delete key (kv w)
   else ~ stale now maxAge (kv w) key /\ kv w' = kv w) /\
  ticks w' = ticks w /\
  tally is_deletion evs = (if deleted then 1 else 0)%nat.
Proof.
  unfold cleanup_key, bind, KV_get, KV_delete, ret. simpl.
  destruct (kv w !! key) as [text|] eqn:Hget.
  - pose proof (expired_stale now maxAge (kv w) key text Hget) as Hiff.
    destruct (str_truthy text && expired now maxAge text); simpl.
    + repeat split. now apply Hiff.
    + repeat split. intros Hs. apply Hiff in Hs. discriminate.
  - simpl. repeat split. intros Hs%stale_present. congruence.
Qed.

Lemma only_deleted_refl P (m : gmap string string) : only_deleted P m m.
Proof. intros key. now left. Qed.

Lemma not_stale_shrinks P now maxAge (m m' : gmap string string) key :
  only_deleted P m m' -> ~ stale now maxAge m key -> ~ stale now maxAge m' key.
Proof.
  intros Hd Hn Hs. destruct (Hd key) as [Heq|[Hnone _]].
  - apply Hn. eapply stale_lookup; [symmetry; exact Heq|exact Hs].
  - apply stale_present in Hs. congruence.
Qed.

Lemma cleanup_keys_effect startTime maxTime now maxAge ks :
  forall P base n w timed_out n' w' evs,
    (forall key, stale now maxAge base key -> P key) ->
    cleanup_keys startTime maxTime now maxAge ks n w = (timed_out, n', w', evs) ->
    only_deleted P base (kv w) ->
    only_deleted P base (kv w') /\
    n' = n + Z.of_nat (tally is_deletion evs) /\
    (timed_out = false -> forall key, In key ks -> ~ stale now maxAge (kv w') key).
Proof.
  induction ks as [|key ks IH]; intros P base n w timed_out n' w' evs HP Hrun Hbase;
    simpl in Hrun.
  - injection Hrun as <- <- <- <-.
    split; [exact Hbase|split; [unfold tally; simpl; lia|intros _ ? []]].
  - invert_bind Hrun. injection Hrun0 as <- <- <-.
    destruct (maxTime <? _ - startTime).
    { injection Hrun as <- <- <- <-. subst evs.
      split; [exact Hbase|split; [unfold tally; simpl; lia|discriminate]]. }
    invert_bind Hrun.
    pose proof (cleanup_key_effect now maxAge key {| kv := kv w; ticks := S (ticks w) |}) as Hkey.
    rewrite Hrun0 in Hkey. simpl in Hkey. destruct Hkey as (Hdel & _ & Htally).
    assert (Hbase0 : only_deleted P base (kv w0)).
    { destruct a; destruct Hdel as [Hs ->]; [|exact Hbase].
      intros k. destruct (decide (k = key)) as [->|Hne].
      - right. split; [apply lookup_delete_eq|]. apply HP.
        destruct (Hbase key) as [Heq|[Hnone _]];
          [eapply stale_lookup; [symmetry; exact Heq|exact Hs]|].
        apply stale_present in Hs. congruence.
      - rewrite lookup_delete_ne by congruence. apply Hbase. }
    destruct (IH _ _ _ _ _ _ _ _ HP Hrun Hbase0) as (Hfin & Hcount & Hvisited).
    destruct (IH (fun _ => True) (kv w0) _ _ _ _ _ _ (fun _ _ => I) Hrun
                (only_deleted_refl _ _)) as (Hshrink & _ & _).
    subst evs e0. simpl. rewrite tally_app, Htally.
    split; [exact Hfin|]. split; [destruct a; lia|].
    intros Hto k [<-|Hin]; [|now apply Hvisited].
    eapply not_stale_shrinks; [exact Hshrink|].
    destruct a; destruct Hdel as [Hs Hkv].
    + rewrite Hkv. intros Hs'%stale_present. now rewrite lookup_delete_eq in Hs'.
    + now rewrite Hkv.
Qed.

Lemma cleanup_prefixes_effect startTime maxTime now cur ps :
  forall P base n w r w' evs,
    (forall p key, In p ps -> stale now p.2 base key -> P key) ->
    cleanup_prefixes startTime maxTime now cur ps n w = (r, w', evs) ->
    only_deleted P base (kv w) ->
    only_deleted P base (kv w') /\
    count r = n + Z.of_nat (tally is_deletion evs) /\
    (complete r = true ->
     Forall2 (fun p e => exists pg, e = KVList p.1 5 cur pg /\
                forall key, In key (keys pg) -> ~ stale now p.2 (kv w') key)
             ps (List.filter is_list evs)).
Proof.
  induction ps as [|[prefix maxAge] rest IH]; intros P base n w r w' evs HP Hrun Hbase;
    simpl in Hrun.
  - injection Hrun as <- <- <-.
    split; [exact Hbase|split; [unfold tally; simpl; lia|constructor]].
  - invert_bind Hrun. injection Hrun0 as <- <- <-.
    destruct (maxTime <? _ - startTime).
    { injection Hrun as <- <- <-. subst evs.
      split; [exact Hbase|split; [unfold tally; simpl; lia|discriminate]]. }
    invert_bind Hrun. injection Hrun0 as <- <- <-. subst evs e0.
    assert (HPrest : forall p key, In p rest -> stale now p.2 base key -> P key).
    { intros p key Hin. apply HP. now right. }
    simpl. destruct (keys (kv_list _ prefix 5 cur)) as [|k0 ks] eqn:Hk.
    + destruct (IH _ _ _ _ _ _ _ HPrest Hrun Hbase) as (Hfin & Hcount & Hdone).
      split; [exact Hfin|]. split; [unfold tally in *; simpl; exact Hcount|].
      intros Hc. constructor; [|now apply Hdone].
      eexists; split; [reflexivity|]. rewrite Hk. intros ? [].
    + invert_bind Hrun. destruct a as [timed_out n1].
      destruct (cleanup_keys_effect _ _ _ _ _ P base _ _ _ _ _ _
                  (fun key => HP (prefix, maxAge) key (or_introl eq_refl)) Hrun0 Hbase)
        as (Hbase1 & Hn1 & Hvisited).
      destruct timed_out.
      { injection Hrun as <- <- <-. subst e1. simpl.
        split; [exact Hbase1|]. split; [|discriminate].
        rewrite app_nil_r. unfold tally in *. simpl. exact Hn1. }
      destruct (list_complete (kv_list _ prefix 5 cur)) eqn:Hlc; simpl in Hrun.
      2:{ injection Hrun as <- <- <-. subst e1. simpl.
          split; [exact Hbase1|]. split; [|discriminate].
          rewrite app_nil_r. unfold tally in *. simpl. exact Hn1. }
      destruct (IH _ _ _ _ _ _ _ HPrest Hrun Hbase1) as (Hfin & Hcount & Hdone).
      destruct (IH (fun _ => True) (kv w0) _ _ _ _ _ (fun _ _ _ _ => I) Hrun
                  (only_deleted_refl _ _)) as (Hshrink & _ & _).
      subst e1. split; [exact Hfin|]. split.
      { change (KVList ?a ?b ?c ?d :: ?l) with ([KVList a b c d] ++ l).
        rewrite !tally_app. unfold tally at 1. simpl. lia. }
      intros Hc. rewrite List.filter_app.
      pose proof (cleanup_keys_no_list startTime maxTime now maxAge (k0 :: ks) n
                    {| kv := kv w; ticks := S (ticks w) |}) as Hnl.
      rewrite Hrun0 in Hnl. simpl in Hnl. rewrite Hnl. simpl.
      constructor; [|now apply Hdone].
      eexists; split; [reflexivity|]. rewrite Hk. intros key Hin.
      eapply not_stale_shrinks; [exact Hshrink|]. now apply Hvisited.
Qed.

(** X1.  The sweep changes the store by deletions only, and every key it
    deletes held a record that was stale for one of the three partitions
    at the time [now] that the handler read when it started: every other
    key holds after the step what it held before. *)
Theorem sweep_deletes_only_stale (cfg : config) (st : state) (maxTime : Z) (w : world) :
  let '(_, w', _) := cleanupIncremental cfg st maxTime w in
  only_deleted (stale_somewhere cfg (clock (S (ticks w))) (kv w)) (kv w) (kv w').
Proof.
  destruct (cleanupIncremental cfg st maxTime w) as [[r w'] evs] eqn:Hrun.
  unfold cleanupIncremental in Hrun.
  invert_bind Hrun. injection Hrun0 as <- <- <-.
  invert_bind Hrun. injection Hrun0 as <- <- <-.
  eapply (cleanup_prefixes_effect _ _ _ _ _ _ (kv w)); [|exact Hrun|apply only_deleted_refl].
  intros p key Hin Hs. now exists p.
Qed.

(** X2.  The [count] that the sweep reports is the number of deletions it
    made in this step, whether it completed or was interrupted. *)
Theorem sweep_count_is_deletions (cfg : config) (st : state) (maxTime : Z) (w : world) :
  let '(r, _, evs) := cleanupIncremental cfg st maxTime w in
  count r = Z.of_nat (tally is_deletion evs).
Proof.
  destruct (cleanupIncremental cfg st maxTime w) as [[r w'] evs] eqn:Hrun.
  unfold cleanupIncremental in Hrun.
  invert_bind Hrun. injection Hrun0 as <- <- <-.
  invert_bind Hrun. injection Hrun0 as <- <- <-. subst.
  destruct (cleanup_prefixes_effect _ _ _ _ _ (fun _ => True) (kv w) _ _ _ _ _
              (fun _ _ _ _ => I) Hrun (only_deleted_refl _ _)) as (_ & Hcount & _).
  simpl. lia.
Qed.

(** X3.  When the sweep reports completion it has listed one page of each
    of the three partitions, in order and from the checkpoint's cursor, and
    no key of any of these pages is left holding a record that is stale for
    its partition. *)
Theorem completed_sweep_leaves_no_stale_key (cfg : config) (st : state) (maxTime : Z)
    (w : world) r w' evs :
  cleanupIncremental cfg st maxTime w = (r, w', evs) ->
  complete r = true ->
  Forall2 (fun p e => exists pg, e = KVList p.1 5 (cursor st) pg /\
             forall key, In key (keys pg) ->
               ~ stale (clock (S (ticks w))) p.2 (kv w') key)
          (prefixesToClean cfg) (List.filter is_list evs).
Proof.
  unfold cleanupIncremental. intros Hrun Hc.
  invert_bind Hrun. injection Hrun0 as <- <- <-.
  invert_bind Hrun. injection Hrun0 as <- <- <-. subst. simpl.
  destruct (cleanup_prefixes_effect _ _ _ _ _ (fun _ => True) (kv w) _ _ _ _ _
              (fun _ _ _ _ => I) Hrun (only_deleted_refl _ _)) as (_ & _ & Hdone).
  now apply Hdone.
Qed.

End SweepEffects.

Section ArchiveEffects.
Context `{Host}.

Lemma concat_lines_app l1 l2 :
  concat_lines (l1 ++ l2) = concat_lines l1 +:+ concat_lines l2.
Proof.
  induction l1 as [|l l1 IH]; [reflexivity|]. simpl. now rewrite IH, string_app_assoc.
Qed.

Lemma string_app_nil_r s : s +:+ EmptyString = s.
Proof. induction s as [|c s IH]; [reflexivity|]. now rewrite app_cons, IH. Qed.

Lemma uploads_app e1 e2 : uploads (e1 ++ e2) = uploads e1 ++ uploads e2.
Proof.
  induction e1 as [|e e1 IH]; [reflexivity|]. destruct e; simpl; now rewrite ?IH.
Qed.

Lemma archive_keys_effect b startTime maxTime ks :
  forall csv n w timed_out csv' n' w' evs,
    archive_keys b startTime maxTime ks csv n w = (timed_out, csv', n', w', evs) ->
    exists visited rest,
      ks = visited ++ rest /\
      csv' = csv +:+ concat_lines (page_rows b (kv w) visited) /\
      n' = n + Z.of_nat (length (page_rows b (kv w) visited)) /\
      uploads evs = [] /\
      (if timed_out
       then kv w' = <[csvKey b := csv']> (kv w) /\ rest <> []
       else kv w' = kv w /\ rest = [] /\ ticks w' = (ticks w + length ks)%nat) /\
      ((forall i, clock i - startTime <= maxTime) -> timed_out = false).
Proof.
  induction ks as [|key ks IH]; intros csv n w timed_out csv' n' w' evs Hrun; simpl in Hrun.
  - injection Hrun as <- <- <- <- <-. exists [], []. simpl.
    rewrite string_app_nil_r. repeat split; auto; lia.
  - invert_bind Hrun. injection Hrun0 as <- <- <-.
    destruct (maxTime <? clock (ticks w) - startTime) eqn:Hlate.
    { invert_bind Hrun. injection Hrun0 as <- <- <-. injection Hrun as <- <- <- <-.
      subst. exists [], (key :: ks). simpl. rewrite string_app_nil_r.
      repeat split; auto; try lia; try discriminate.
      intros Hbudget. specialize (Hbudget (ticks w)). apply Z.ltb_lt in Hlate. lia. }
    invert_bind Hrun. unfold archive_key, bind, KV_get, ret in Hrun0. simpl in Hrun0.
    injection Hrun0 as <- <- <-.
    assert (Hrow : match kv w !! key with
                   | Some d => if str_truthy d then row b key d else None
                   | None => None
                   end = record_row b (kv w) key) by reflexivity.
    rewrite Hrow in Hrun. clear Hrow.
    destruct (record_row b (kv w) key) as [line|] eqn:Hline;
      destruct (IH _ _ _ _ _ _ _ _ Hrun)
        as (visited & rest & -> & -> & -> & Hup & Hkv & Htime);
      exists (key :: visited), rest; subst; simpl in *; rewrite Hline; simpl.
    + rewrite string_app_assoc in *. split; [reflexivity|].
      split; [reflexivity|]. split; [lia|]. split; [exact Hup|]. split; [|exact Htime].
      destruct timed_out; [exact Hkv|].
      destruct Hkv as (? & ? & ->). repeat split; auto; simpl; lia.
    + split; [reflexivity|].
      split; [reflexivity|]. split; [lia|]. split; [exact Hup|]. split; [|exact Htime].
      destruct timed_out; [exact Hkv|].
      destruct Hkv as (? & ? & ->). repeat split; auto; simpl; lia.
Qed.


Lemma archive_step_effect cfg b st maxTime w r w' evs :
  archive_step cfg b st maxTime w = (r, w', evs) ->
  let pg := kv_list (kv w) (partition b) 20 (cursor st) in
  let buf := loaded_buffer b (kv w) in
  (keys pg = [] /\ complete r = true /\ count r = 0 /\
   (kv w' = kv w \/ kv w' = delete (csvKey b) (kv w))) \/
  (keys pg <> [] /\
   exists visited rest,
     keys pg = visited ++ rest /\
     let csv := buf +:+ concat_lines (page_rows b (kv w) visited) in
     count r = Z.of_nat (length (page_rows b (kv w) visited)) /\
     ((complete r = false /\ res_cursor r = page_cursor pg /\
       kv w' = <[csvKey b := csv]> (kv w) /\ uploads evs = [] /\
       (rest = [] -> list_complete pg = false) /\
       ((forall i, clock i - clock (ticks w) <= maxTime) -> rest = [])) \/
      (complete r = true /\ rest = [] /\ list_complete pg = true /\
       kv w' = delete (csvKey b) (kv w) /\
       uploads evs =
         if from_option str_truthy false (GITHUB_TOKEN cfg)
         then [(dated_path (clock (S (ticks w) + length visited)%nat) (filename b), csv)]
         else []))).
Proof.
  intros Hrun pg buf. unfold archive_step in Hrun.
  invert_bind Hrun. injection Hrun0 as <- <- <-.
  invert_bind Hrun. injection Hrun0 as <- <- <-.
  invert_bind Hrun. injection Hrun0 as <- <- <-.
  simpl in Hrun. fold pg in Hrun.
  change (match kv w !! csvKey b with
          | Some s => if str_truthy s then s else header b
          | None => header b
          end) with buf in Hrun.
  destruct (keys pg) as [|k ks] eqn:Hkeys.
  - left. invert_bind Hrun. injection Hrun as <- <- <-.
    repeat split; auto.
    destruct (str_truthy buf && (flush_above b <? String.length buf)%nat).
    + apply bind_inv in Hrun0 as (? & ? & ? & ? & Hsave & Hdel & ->).
      injection Hdel as <- <- <-.
      unfold saveToGitHub in Hsave.
      destruct (negb _); [injection Hsave as <- <- <-; now right|].
      injection Hsave as <- <- <-. now right.
    + injection Hrun0 as <- <- <-. now left.
  - right. split; [discriminate|].
    invert_bind Hrun. destruct a as [[timed_out csv] n].
    apply archive_keys_effect in Hrun0
      as (visited & rest & Hks & -> & -> & Hup & Hkv & Htime).
    simpl in Hkv, Htime. exists visited, rest. split; [exact Hks|]. simpl.
    destruct timed_out.
    + injection Hrun as <- <- <-. simpl. split; [lia|]. left.
      subst. destruct Hkv as [Hkv Hrest]. repeat split; auto.
      * simpl. now rewrite app_nil_r.
      * intros ->. now destruct Hrest.
      * intros Hbudget. now specialize (Htime Hbudget).
    + destruct Hkv as (Hkv & -> & Hticks). rewrite app_nil_r in Hks.
      apply bind_inv in Hrun as (? & wp & ? & ? & Hput & Hrun & ->).
      injection Hput as <- <- <-. revert Hks; subst; intros Hks. simpl in Hrun.
      destruct (list_complete pg) eqn:Hcomplete.
      * apply bind_inv in Hrun as (? & ws & es & ? & Hsave & Hrun & ->).
        apply bind_inv in Hrun as (? & wd & ? & ? & Hdel & Hrun & ->).
        injection Hdel as <- <- <-. injection Hrun as <- <- <-. simpl.
        split; [lia|]. right. 
        assert (Hws : kv ws = <[csvKey b:=buf +:+ concat_lines (page_rows b (kv w) visited)]> (kv w0)
                      /\ uploads es = if from_option str_truthy false (GITHUB_TOKEN cfg)
         then [(dated_path (clock (S (ticks w) + length visited)%nat) (filename b), buf +:+ concat_lines (page_rows b (kv w) visited))]
         else []).
        { unfold saveToGitHub in Hsave.
          destruct (from_option str_truthy false (GITHUB_TOKEN cfg)); simpl in Hsave.
          - injection Hsave as <- <- <-. simpl.
            replace (ticks w0) with (S (ticks w) + length visited)%nat
              by (rewrite Hticks, <- Hks; simpl; lia).
            split; reflexivity.
          - injection Hsave as <- <- <-. split; reflexivity. }
        destruct Hws as [Hws Hes]. repeat split; auto.
        -- rewrite Hws, Hkv. apply map_eq. intros key.
           destruct (decide (key = csvKey b)) as [->|Hne].
           ++ now rewrite !lookup_delete_eq.
           ++ now rewrite !lookup_delete_ne, lookup_insert_ne by congruence.
        -- rewrite !uploads_app, Hup. simpl. rewrite uploads_app, Hes. simpl.
           now rewrite app_nil_r.
      * injection Hrun as <- <- <-. simpl. split; [lia|]. left.
        repeat split; auto.
        -- rewrite Hkv. apply map_eq. intros key.
           destruct (decide (key = csvKey b)) as [->|Hne].
           ++ now rewrite !lookup_insert_eq.
           ++ now rewrite !lookup_insert_ne by congruence.
        -- rewrite !uploads_app, Hup. reflexivity.
Qed.


(** X4.  An archive step never modifies or deletes a record: whatever it
    does, every key other than its buffer key holds afterwards what it held
    before. *)
Theorem archive_changes_only_its_buffer (cfg : config) (b : builder) (st : state)
    (maxTime : Z) (w : world) (key : string) :
  key <> csvKey b ->
  kv (archive_step cfg b st maxTime w).1.2 !! key = kv w !! key.
Proof.
  intros Hne. destruct (archive_step cfg b st maxTime w) as [[r w'] evs] eqn:Hrun.
  apply archive_step_effect in Hrun. simpl in *.
  destruct Hrun as [(_ & _ & _ & [-> | ->])
                   |(_ & visited & rest & _ & _ &
                     [(_ & _ & -> & _)|(_ & _ & _ & -> & _)])].
  - reflexivity.
  - now apply lookup_delete_ne.
  - now apply lookup_insert_ne.
  - now apply lookup_delete_ne.
Qed.

(** X5.  When an archive step reports [complete = false], the buffer it
    leaves in the store is the buffer it loaded followed by the lines of
    the keys it visited, a prefix of the page in page order; [count] is the
    number of these lines, nothing was uploaded, and the cursor it hands
    back is the one the lister returned with the page, also when keys of
    the page were not visited. *)
Theorem interrupted_archive_persists_visited_rows (cfg : config) (b : builder)
    (st : state) (maxTime : Z) (w : world) r w' evs :
  archive_step cfg b st maxTime w = (r, w', evs) ->
  complete r = false ->
  let pg := kv_list (kv w) (partition b) 20 (cursor st) in
  exists visited rest,
    keys pg = visited ++ rest /\
    count r = Z.of_nat (length (page_rows b (kv w) visited)) /\
    kv w' !! csvKey b =
      Some (loaded_buffer b (kv w) +:+ concat_lines (page_rows b (kv w) visited)) /\
    res_cursor r = page_cursor pg /\
    uploads evs = [].
Proof.
  intros Hrun Hc pg. apply archive_step_effect in Hrun. fold pg in Hrun.
  destruct Hrun as [(_ & Hc' & _)|(_ & visited & rest & Hks & Hn & Hcases)];
    [congruence|].
  destruct Hcases as [(_ & Hcur & Hkv & Hup & _)|(Hc' & _)]; [|congruence].
  exists visited, rest. repeat split; auto. rewrite Hkv. apply lookup_insert_eq.
Qed.

(** X6.  When an archive step reports [complete = true] on a page that
    holds keys, that page was the last one of the partition; the file
    uploaded (when the token is configured) is the loaded buffer followed
    by the line of every record of the page, under the dated path; [count]
    is the number of these lines, and the buffer key is deleted. *)
Theorem completed_archive_uploads_page_rows (cfg : config) (b : builder)
    (st : state) (maxTime : Z) (w : world) r w' evs :
  archive_step cfg b st maxTime w = (r, w', evs) ->
  complete r = true ->
  let pg := kv_list (kv w) (partition b) 20 (cursor st) in
  keys pg <> [] ->
  let rows := page_rows b (kv w) (keys pg) in
  list_complete pg = true /\
  count r = Z.of_nat (length rows) /\
  kv w' = delete (csvKey b) (kv w) /\
  uploads evs =
    if from_option str_truthy false (GITHUB_TOKEN cfg)
    then [(dated_path (clock (S (ticks w) + length (keys pg))%nat) (filename b),
           loaded_buffer b (kv w) +:+ concat_lines rows)]
    else [].
Proof.
  intros Hrun Hc pg Hne rows. apply archive_step_effect in Hrun. fold pg in Hrun.
  destruct Hrun as [(Hk & _)|(_ & visited & rest & Hks & Hn & Hcases)];
    [contradiction|].
  destruct Hcases as [(Hc' & _)|(_ & -> & Hl & Hkv & Hup)]; [congruence|].
  rewrite app_nil_r in Hks. unfold rows. rewrite Hks. auto.
Qed.

(** X7.  Within the budget an archive step depends on the page alone: if
    no clock reading is later than [maxTime] after the start of the step,
    the step reports completion exactly when the page it fetched is the
    last one or holds no key. *)
Theorem archive_completes_iff_exhausted_within_budget (cfg : config) (b : builder)
    (st : state) (maxTime : Z) (w : world) :
  (forall i, clock i - clock (ticks w) <= maxTime) ->
  complete (archive_step cfg b st maxTime w).1.1 = true <->
  exhausted (kv_list (kv w) (partition b) 20 (cursor st)).
Proof.
  intros Hbudget. destruct (archive_step cfg b st maxTime w) as [[r w'] evs] eqn:Hrun.
  apply archive_step_effect in Hrun. simpl in *.
  set (pg := kv_list (kv w) (partition b) 20 (cursor st)) in *.
  destruct Hrun as [(Hk & Hc & _)|(Hne & visited & rest & Hks & Hn & Hcases)].
  - split; [now right|auto].
  - destruct Hcases as [(Hc & _ & _ & _ & Hl & Hrest)|(Hc & _ & Hl & _)].
    + specialize (Hl (Hrest Hbudget)). rewrite Hc. split; [discriminate|].
      intros [Hl'|Hk]; [congruence|contradiction].
    + split; [now left|auto].
Qed.

End ArchiveEffects.

Section SchedulerEffects.
Context `{Host}.

Lemma stored_after_put cfg st (m : gmap string string) :
  checkpoint_codec ->
  stored_checkpoint cfg (<[stateKey cfg := JSON_stringify (json_of_state st)]> m)
    = Some (LState st).
Proof.
  intros Hcodec. destruct (Hcodec st) as (Htruthy & j & Hparse & Hstate).
  unfold stored_checkpoint. now rewrite lookup_insert_eq, Htruthy, Hparse, Hstate.
Qed.

(** X8.  When the handler of the active phase reports [complete = false],
    the scheduler stays in the phase: it persists the checkpoint with the
    cursor the handler handed back and the handler's count added to
    [processed], returns [complete: false] with that phase and count, and
    the next invocation loads exactly that checkpoint. *)
Theorem scheduler_resumes_on_incomplete_step (cfg : config) (w w1 w2 : world)
    (st : state) h (r : step_result) (e2 : list event) :
  checkpoint_codec ->
  loaded_checkpoint cfg w = (LState st, w1) ->
  handler_of (phase st) = Some h ->
  h cfg st (budget w w1) (tick w1) = (r, w2, e2) ->
  complete r = false ->
  let st' := {| phase := phase st; cursor := res_cursor r;
                processed := processed st + count r;
                startedAt := startedAt st |} in
  exists w',
    runIncrementalMaintenance cfg w =
      (Returned (Continue (phase st) (processed st + count r)), w',
       KVGet (stateKey cfg) :: LogPhase (phase st) (processed st) :: e2 ++
       [KVPut (stateKey cfg) (JSON_stringify (json_of_state st'))]) /\
    loaded_checkpoint cfg w' = (LState st', tick w').
Proof.
  intros Hcodec Hload Hh Hrun Hc st'. rewrite run_unfold, Hload, Hh, Hrun.
  assert (Hnext : forall next, next_state st next r = st').
  { intros next. unfold next_state. now rewrite Hc. }
  rewrite Hc.
  destruct (next_phase (phase st)) as [next|]; rewrite Hnext; unfold continued;
    (eexists; split; [reflexivity|]);
    unfold loaded_checkpoint; simpl; now rewrite stored_after_put.
Qed.

Lemma invocations_S n cfg w :
  invocations (S n) cfg w =
    let '(o, w1, e1) := runIncrementalMaintenance cfg w in
    let '(os, w2, e2) := invocations n cfg w1 in
    (o :: os, w2, e1 ++ e2).
Proof.
  simpl. unfold bind, ret.
  destruct (runIncrementalMaintenance cfg w) as [[o w1] e1].
  destruct (invocations n cfg w1) as [[os w2] e2]. now rewrite app_nil_r.
Qed.

(** X9.  A checkpoint whose phase is none of the three is never left:
    every invocation that finds it runs no handler, writes it back as it
    is and returns [complete: false] with its phase and count, so the
    cycle does not complete, however many invocations follow. *)
Theorem unknown_phase_is_never_left (cfg : config) (st : state) (n : nat) (w : world) :
  checkpoint_codec ->
  stored_checkpoint cfg (kv w) = Some (LState st) ->
  handler_of (phase st) = None ->
  let '(os, w', evs) := invocations n cfg w in
  os = repeat (Returned (Continue (phase st) (processed st))) n /\
  stored_checkpoint cfg (kv w') = Some (LState st) /\
  evs = concat (repeat (idle_calls cfg st) n).
Proof.
  intros Hcodec Hst Hh. revert w Hst. induction n as [|n IH]; intros w Hst.
  - simpl. unfold ret. auto.
  - rewrite invocations_S, run_unfold. unfold loaded_checkpoint. rewrite Hst, Hh.
    unfold continued.
    match goal with |- context [invocations n cfg ?w1] => specialize (IH w1) end.
    simpl kv in IH. specialize (IH (stored_after_put cfg st _ Hcodec)).
    destruct (invocations n cfg _) as [[os w2] e2].
    destruct IH as (-> & Hst2 & ->). repeat split; auto.
Qed.

End SchedulerEffects.

(** Witness of X3: the sweep of three stale rate-limit records. *)
Lemma completed_sweep_witness :
  complete (Scenario.stale_sweep).1.1 = true /\
  Forall2 (fun p e => exists pg, e = KVList p.1 5 None pg /\
             forall key, In key (keys pg) ->
               ~ stale (H := Sim.steady) Sim.t0 p.2 (kv (Scenario.stale_sweep).1.2) key)
          (prefixesToClean Sim.cfg) (List.filter is_list (Scenario.stale_sweep).2).
Proof.
  assert (Hc : complete (Scenario.stale_sweep).1.1 = true) by (vm_compute; reflexivity).
  split; [exact Hc|].
  exact (completed_sweep_leaves_no_stale_key (H := Sim.steady)
           Sim.cfg Sim.checkpoint0 8 (Sim.ratelimits 3) _ _ _
           (triple_eta Scenario.stale_sweep) Hc).
Defined.

(** Witness of X4: the record of subscriber 1 across the step over three
    subscribers. *)
Lemma archive_frame_witness :
  Sim.subscriber_key 1 <> csvKey (subscribers_builder (H := Sim.steady) Sim.cfg) /\
  kv (Scenario.full_step).1.2 !! Sim.subscriber_key 1
    = kv (Sim.subscribers 3) !! Sim.subscriber_key 1.
Proof.
  assert (Hne : Sim.subscriber_key 1
                <> csvKey (subscribers_builder (H := Sim.steady) Sim.cfg))
    by (vm_compute; discriminate).
  split; [exact Hne|].
  exact (archive_changes_only_its_buffer (H := Sim.steady) Sim.cfg
           (subscribers_builder (H := Sim.steady) Sim.cfg) Sim.checkpoint0 8
           (Sim.subscribers 3) (Sim.subscriber_key 1) Hne).
Defined.

(** Witness of X5: the step interrupted before its third key. *)
Lemma interrupted_archive_witness :
  complete (Scenario.interrupted_step).1.1 = false /\
  let b := subscribers_builder (H := Sim.delayed 3) Sim.cfg in
  let m := kv (Sim.subscribers 3) in
  let pg := Sim.list_keys m "subscriber:" 20 None in
  exists visited rest,
    keys pg = visited ++ rest /\
    count (Scenario.interrupted_step).1.1 = Z.of_nat (length (page_rows b m visited)) /\
    kv (Scenario.interrupted_step).1.2 !! csvKey b =
      Some (loaded_buffer b m +:+ concat_lines (page_rows b m visited)) /\
    res_cursor (Scenario.interrupted_step).1.1 = page_cursor pg /\
    uploads (Scenario.interrupted_step).2 = [].
Proof.
  assert (Hc : complete (Scenario.interrupted_step).1.1 = false)
    by (vm_compute; reflexivity).
  split; [exact Hc|].
  exact (interrupted_archive_persists_visited_rows (H := Sim.delayed 3) Sim.cfg
           (subscribers_builder (H := Sim.delayed 3) Sim.cfg) Sim.checkpoint0 8
           (Sim.subscribers 3) _ _ _ (triple_eta Scenario.interrupted_step) Hc).
Defined.

(** Witness of X6: the step over three subscribers on a steady clock. *)
Lemma completed_archive_witness :
  complete (Scenario.full_step).1.1 = true /\
  let b := subscribers_builder (H := Sim.steady) Sim.cfg in
  let m := kv (Sim.subscribers 3) in
  let pg := Sim.list_keys m "subscriber:" 20 None in
  keys pg <> [] /\
  list_complete pg = true /\
  count (Scenario.full_step).1.1 = Z.of_nat (length (page_rows b m (keys pg))) /\
  kv (Scenario.full_step).1.2 = delete (csvKey b) m /\
  uploads (Scenario.full_step).2 =
    if from_option str_truthy false (GITHUB_TOKEN Sim.cfg)
    then [(dated_path (H := Sim.steady) Sim.t0 (filename b),
           loaded_buffer b m +:+ concat_lines (page_rows b m (keys pg)))]
    else [].
Proof.
  assert (Hc : complete (Scenario.full_step).1.1 = true) by (vm_compute; reflexivity).
  assert (Hne : keys (Sim.list_keys (kv (Sim.subscribers 3)) "subscriber:" 20 None) <> [])
    by (vm_compute; discriminate).
  split; [exact Hc|]. split; [exact Hne|].
  exact (completed_archive_uploads_page_rows (H := Sim.steady) Sim.cfg
           (subscribers_builder (H := Sim.steady) Sim.cfg) Sim.checkpoint0 8
           (Sim.subscribers 3) _ _ _ (triple_eta Scenario.full_step) Hc Hne).
Defined.

(** Witness of X7: a steady clock is within every budget that is not
    negative. *)
Lemma archive_within_budget_witness :
  (forall i, clock (Host := Sim.steady) i - Sim.t0 <= 8) /\
  (complete (Scenario.full_step).1.1 = true <->
   exhausted (Sim.list_keys (kv (Sim.subscribers 3)) "subscriber:" 20 None)).
Proof.
  assert (Hb : forall i, clock (Host := Sim.steady) i - Sim.t0 <= 8)
    by (intros i; vm_compute; discriminate).
  split; [exact Hb|].
  exact (archive_completes_iff_exhausted_within_budget (H := Sim.steady) Sim.cfg
           (subscribers_builder (H := Sim.steady) Sim.cfg) Sim.checkpoint0 8
           (Sim.subscribers 3) Hb).
Defined.

(** Witness of X8: the first invocation of [sweep_cycle], interrupted after
    its first key. *)
Lemma scheduler_resumes_witness :
  checkpoint_codec (H := Sim.delayed 7) /\
  loaded_checkpoint (H := Sim.delayed 7) Sim.cfg (Sim.ratelimits 6)
    = (LState (fresh_state (H := Sim.delayed 7) Sim.t0), tick (tick (Sim.ratelimits 6))) /\
  handler_of (H := Sim.delayed 7) "cleanup" = Some (cleanupIncremental (H := Sim.delayed 7)) /\
  complete (Scenario.interrupted_sweep).1.1 = false /\
  let r := (Scenario.interrupted_sweep).1.1 in
  let st' := {| phase := "cleanup"; cursor := res_cursor r;
                processed := 0 + count r;
                startedAt := Sim.toISOString Sim.t0 |} in
  exists w',
    runIncrementalMaintenance (H := Sim.delayed 7) Sim.cfg (Sim.ratelimits 6) =
      (Returned (Continue "cleanup" (0 + count r)), w',
       KVGet (stateKey Sim.cfg) :: LogPhase "cleanup" 0 ::
       (Scenario.interrupted_sweep).2 ++
       [KVPut (stateKey Sim.cfg) (Sim.print (json_of_state st'))]) /\
    loaded_checkpoint (H := Sim.delayed 7) Sim.cfg w' = (LState st', tick w').
Proof.
  assert (Hload : loaded_checkpoint (H := Sim.delayed 7) Sim.cfg (Sim.ratelimits 6)
    = (LState (fresh_state (H := Sim.delayed 7) Sim.t0), tick (tick (Sim.ratelimits 6))))
    by (vm_compute; reflexivity).
  assert (Hc : complete (Scenario.interrupted_sweep).1.1 = false)
    by (vm_compute; reflexivity).
  split; [apply sim_codec|]. split; [exact Hload|]. split; [reflexivity|].
  split; [exact Hc|].
  exact (scheduler_resumes_on_incomplete_step (H := Sim.delayed 7) Sim.cfg
           (Sim.ratelimits 6) _ _ _ _ _ _ (sim_codec _) Hload eq_refl
           (triple_eta Scenario.interrupted_sweep) Hc).
Defined.

(** Witness of X9: five invocations on a store whose checkpoint names the
    phase [archive]. *)
Lemma unknown_phase_witness :
  checkpoint_codec (H := Sim.steady) /\
  stored_checkpoint (H := Sim.steady) Sim.cfg (kv Scenario.foreign_world)
    = Some (LState Scenario.foreign_checkpoint) /\
  handler_of (H := Sim.steady) "archive" = None /\
  let '(os, w', evs) := invocations (H := Sim.steady) 5 Sim.cfg Scenario.foreign_world in
  os = repeat (Returned (Continue "archive" 7)) 5 /\
  stored_checkpoint (H := Sim.steady) Sim.cfg (kv w')
    = Some (LState Scenario.foreign_checkpoint) /\
  evs = concat (repeat (idle_calls (H := Sim.steady) Sim.cfg Scenario.foreign_checkpoint) 5).
Proof.
  assert (Hst : stored_checkpoint (H := Sim.steady) Sim.cfg (kv Scenario.foreign_world)
                = Some (LState Scenario.foreign_checkpoint)) by (vm_compute; reflexivity).
  split; [apply sim_codec|]. split; [exact Hst|]. split; [reflexivity|].
  exact (unknown_phase_is_never_left (H := Sim.steady) Sim.cfg
           Scenario.foreign_checkpoint 5 Scenario.foreign_world (sim_codec _) Hst eq_refl).
Defined.

Section EmptyPartition.
Context `{Host}.

(** X10.  On an empty page the subscribers builder uploads nothing when it
    has nothing but the header line: with no stored buffer, or one that
    holds just the header, the step makes no call on the sink, leaves the
    store as it is and reports [complete = true] with [count = 0]. *)
Theorem empty_subscribers_partition_uploads_nothing (cfg : config) (st : state)
    (maxTime : Z) (w : world) :
  keys (kv_list (kv w) (PREFIX_SUBSCRIBER cfg) 20 (cursor st)) = [] ->
  loaded_buffer (subscribers_builder cfg) (kv w) = header (subscribers_builder cfg) ->
  backupSubscribersIncremental cfg st maxTime w =
    ({| complete := true; res_cursor := None; count := 0 |},
     {| kv := kv w; ticks := S (ticks w) |},
     [ KVGet (csvKey (subscribers_builder cfg));
       KVList (PREFIX_SUBSCRIBER cfg) 20 (cursor st)
              (kv_list (kv w) (PREFIX_SUBSCRIBER cfg) 20 (cursor st)) ]).
Proof.
  intros Hpage Hbuf. unfold backupSubscribersIncremental, archive_step.
  unfold bind, Date_now, KV_get, KV_list, ret. simpl.
  unfold loaded_buffer in Hbuf. simpl in Hbuf. rewrite Hbuf, Hpage. reflexivity.
Qed.

(** X11.  The contacts builder does upload on an empty page when it has
    nothing but the header line: its header is longer than the 50
    characters above which the buffer is flushed, so with the token
    configured an empty partition yields a file that holds the header
    alone. *)
Theorem empty_contacts_partition_uploads_header (cfg : config) (st : state)
    (maxTime : Z) (w : world) :
  from_option str_truthy false (GITHUB_TOKEN cfg) = true ->
  keys (kv_list (kv w) (PREFIX_CONTACT cfg) 20 (cursor st)) = [] ->
  loaded_buffer (contacts_builder cfg) (kv w) = header (contacts_builder cfg) ->
  let '(r, w', evs) := backupContactsIncremental cfg st maxTime w in
  r = {| complete := true; res_cursor := None; count := 0 |} /\
  kv w' = delete (csvKey (contacts_builder cfg)) (kv w) /\
  uploads evs =
    [(dated_path (clock (S (ticks w))) "contacts-backup.csv",
      "email,name,phone,message,subscribed,ip_address,timestamp" +:+ nl)].
Proof.
  intros Htok Hpage Hbuf. unfold backupContactsIncremental, archive_step.
  unfold bind, Date_now, KV_get, KV_list, KV_delete, ret. simpl.
  unfold loaded_buffer in Hbuf. simpl in Hbuf. rewrite Hbuf, Hpage. simpl.
  rewrite saveToGitHub_with_token by exact Htok. simpl. auto.
Qed.

End EmptyPartition.

(** Witness of X10: the subscribers step on an empty store. *)
Lemma empty_subscribers_witness :
  keys (Sim.list_keys (kv Sim.empty_world) "subscriber:" 20 None) = [] /\
  loaded_buffer (subscribers_builder (H := Sim.steady) Sim.cfg) (kv Sim.empty_world)
    = "email,ip_address,timestamp" +:+ nl /\
  backupSubscribersIncremental (H := Sim.steady) Sim.cfg Sim.checkpoint0 8 Sim.empty_world =
    ({| complete := true; res_cursor := None; count := 0 |},
     {| kv := ∅; ticks := 1 |},
     [ KVGet "maintenance:backup-csv-subscribers";
       KVList "subscriber:" 20 None (Sim.list_keys ∅ "subscriber:" 20 None) ]).
Proof.
  split; [reflexivity|]. split; [reflexivity|].
  exact (empty_subscribers_partition_uploads_nothing (H := Sim.steady) Sim.cfg
           Sim.checkpoint0 8 Sim.empty_world eq_refl eq_refl).
Defined.

(** Witness of X11: the contacts step on an empty store. *)
Lemma empty_contacts_witness :
  from_option str_truthy false (GITHUB_TOKEN Sim.cfg) = true /\
  keys (Sim.list_keys (kv Sim.empty_world) "contact:" 20 None) = [] /\
  loaded_buffer (contacts_builder (H := Sim.steady) Sim.cfg) (kv Sim.empty_world)
    = "email,name,phone,message,subscribed,ip_address,timestamp" +:+ nl /\
  let '(r, w', evs) :=
    backupContactsIncremental (H := Sim.steady) Sim.cfg Sim.checkpoint0 8 Sim.empty_world in
  r = {| complete := true; res_cursor := None; count := 0 |} /\
  kv w' = delete "maintenance:backup-csv-contacts" ∅ /\
  uploads evs =
    [(dated_path (H := Sim.steady) Sim.t0 "contacts-backup.csv",
      "email,name,phone,message,subscribed,ip_address,timestamp" +:+ nl)].
Proof.
  split; [reflexivity|]. split; [reflexivity|]. split; [reflexivity|].
  exact (empty_contacts_partition_uploads_header (H := Sim.steady) Sim.cfg
           Sim.checkpoint0 8 Sim.empty_world eq_refl eq_refl eq_refl).
Defined.

Section WithinBudget.
Context `{Host}.

Lemma cleanup_keys_in_time startTime maxTime now maxAge ks :
  (forall i, clock i - startTime <= maxTime) ->
  forall n w timed_out n' w' evs,
    cleanup_keys startTime maxTime now maxAge ks n w = (timed_out, n', w', evs) ->
    timed_out = false.
Proof.
  intros Hbudget. induction ks as [|key ks IH]; intros n w timed_out n' w' evs Hrun;
    simpl in Hrun.
  - now injection Hrun as <- <- <- <-.
  - invert_bind Hrun. injection Hrun0 as <- <- <-.
    destruct (maxTime <? clock (ticks w) - startTime) eqn:Hlate.
    { apply Z.ltb_lt in Hlate. specialize (Hbudget (ticks w)). lia. }
    invert_bind Hrun. eapply IH. exact Hrun.
Qed.

Lemma cleanup_prefixes_in_time startTime maxTime now cur ps :
  (forall i, clock i - startTime <= maxTime) ->
  forall n w r w' evs,
    cleanup_prefixes startTime maxTime now cur ps n w = (r, w', evs) ->
    complete r = false ->
    exists p pg,
      In p ps /\
      last (List.filter is_list evs) = Some (KVList p.1 5 cur pg) /\
      keys pg <> [] /\ list_complete pg = false /\
      res_cursor r = page_cursor pg.
Proof.
  intros Hbudget. induction ps as [|[prefix maxAge] rest IH]; intros n w r w' evs Hrun Hc;
    simpl in Hrun.
  - injection Hrun as <- <- <-. discriminate.
  - invert_bind Hrun. injection Hrun0 as <- <- <-.
    destruct (maxTime <? clock (ticks w) - startTime) eqn:Hlate.
    { apply Z.ltb_lt in Hlate. specialize (Hbudget (ticks w)). lia. }
    invert_bind Hrun. injection Hrun0 as <- <- <-. subst evs e0. simpl.
    destruct (keys (kv_list (kv w) prefix 5 cur)) as [|k0 ks] eqn:Hk.
    + destruct (IH _ _ _ _ _ Hrun Hc) as (p & pg & Hin & Hlast & Hrest).
      exists p, pg. split; [now right|]. split; [|exact Hrest].
      destruct (List.filter is_list e1); [discriminate|exact Hlast].
    + invert_bind Hrun. destruct a as [timed_out n1].
      pose proof (cleanup_keys_no_list startTime maxTime now maxAge (k0 :: ks) n
                    {| kv := kv w; ticks := S (ticks w) |}) as Hnl.
      rewrite Hrun0 in Hnl. simpl in Hnl.
      apply (cleanup_keys_in_time _ _ _ _ _ Hbudget) in Hrun0 as ->.
      subst e1. rewrite List.filter_app, Hnl. simpl.
      destruct (list_complete (kv_list (kv w) prefix 5 cur)) eqn:Hlc; simpl in Hrun.
      * destruct (IH _ _ _ _ _ Hrun Hc) as (p & pg & Hin & Hlast & Hrest).
        exists p, pg. split; [now right|]. split; [|exact Hrest].
        destruct (List.filter is_list e0); [discriminate|exact Hlast].
      * injection Hrun as <- <- <-. simpl.
        exists (prefix, maxAge), (kv_list (kv w) prefix 5 cur).
        split; [now left|]. split; [reflexivity|]. rewrite Hk. split; [discriminate|].
        split; [exact Hlc|reflexivity].
Qed.

(** X12.  Within the budget the sweep stops early only at a partition
    that has more pages: if no clock reading is later than [maxTime] after
    the start of the step and the step reports [complete = false], then the
    last page it listed belongs to one of the three partitions, holds keys
    and is not the last page of that partition, and the cursor handed back
    is the one the lister returned with that page. *)
Theorem sweep_within_budget_stops_at_unfinished_partition (cfg : config) (st : state)
    (maxTime : Z) (w : world) r w' evs :
  (forall i, clock i - clock (ticks w) <= maxTime) ->
  cleanupIncremental cfg st maxTime w = (r, w', evs) ->
  complete r = false ->
  exists p pg,
    In p (prefixesToClean cfg) /\
    last (List.filter is_list evs) = Some (KVList p.1 5 (cursor st) pg) /\
    keys pg <> [] /\ list_complete pg = false /\
    res_cursor r = page_cursor pg.
Proof.
  intros Hbudget Hrun Hc. unfold cleanupIncremental in Hrun.
  invert_bind Hrun. injection Hrun0 as <- <- <-.
  invert_bind Hrun. injection Hrun0 as <- <- <-. subst.
  exact (cleanup_prefixes_in_time _ _ _ _ _ Hbudget _ _ _ _ _ Hrun Hc).
Qed.

(** X13.  A checkpoint that is not JSON blocks the maintenance: every
    invocation that finds it rethrows the error of [JSON.parse] after the
    one read of the checkpoint, runs no handler and leaves the store as it
    is, so nothing is swept or archived until the checkpoint is removed. *)
Theorem unparsable_checkpoint_blocks_every_invocation (cfg : config) (text : string)
    (n : nat) (w : world) :
  kv w !! stateKey cfg = Some text ->
  str_truthy text = true ->
  JSON_parse text = None ->
  invocations n cfg w =
    (repeat Thrown n,
     {| kv := kv w; ticks := (n + ticks w)%nat |},
     repeat (KVGet (stateKey cfg)) n).
Proof.
  intros Hget Htruthy Hparse. revert w Hget.
  induction n as [|n IH]; intros w Hget.
  - simpl. unfold ret. now destruct w.
  - rewrite invocations_S, run_unfold. unfold loaded_checkpoint, stored_checkpoint.
    rewrite Hget, Htruthy, Hparse. rewrite (IH (tick w)) by exact Hget.
    simpl. repeat f_equal. lia.
Qed.

End WithinBudget.

(** Witness of X12: the sweep of six stale records stops after the first
    page of five. *)
Lemma sweep_within_budget_witness :
  (forall i, clock (Host := Sim.steady) i - Sim.t0 <= 8) /\
  complete (Scenario.paged_sweep).1.1 = false /\
  exists p pg,
    In p (prefixesToClean Sim.cfg) /\
    last (List.filter is_list (Scenario.paged_sweep).2) = Some (KVList p.1 5 None pg) /\
    keys pg <> [] /\ list_complete pg = false /\
    res_cursor (Scenario.paged_sweep).1.1 = page_cursor pg.
Proof.
  assert (Hb : forall i, clock (Host := Sim.steady) i - Sim.t0 <= 8)
    by (intros i; vm_compute; discriminate).
  assert (Hc : complete (Scenario.paged_sweep).1.1 = false) by (vm_compute; reflexivity).
  split; [exact Hb|]. split; [exact Hc|].
  exact (sweep_within_budget_stops_at_unfinished_partition (H := Sim.steady) Sim.cfg
           Sim.checkpoint0 8 (Sim.ratelimits 6) _ _ _ Hb
           (triple_eta Scenario.paged_sweep) Hc).
Defined.

(** Witness of X13: three invocations on [garbled_world]. *)
Lemma unparsable_checkpoint_witness :
  kv Scenario.garbled_world !! stateKey Sim.cfg = Some "{phase" /\
  Sim.parse "{phase" = None /\
  invocations (H := Sim.steady) 3 Sim.cfg Scenario.garbled_world =
    (repeat Thrown 3,
     {| kv := kv Scenario.garbled_world; ticks := 3 |},
     repeat (KVGet (stateKey Sim.cfg)) 3).
Proof.
  assert (Hp : Sim.parse "{phase" = None) by (vm_compute; reflexivity).
  split; [reflexivity|]. split; [exact Hp|].
  exact (unparsable_checkpoint_blocks_every_invocation (H := Sim.steady) Sim.cfg
           "{phase" 3 Scenario.garbled_world eq_refl eq_refl Hp).
Defined.

(** ** The archive sink *)

Section GitHubProperties.
Context `{Host} {net : Network}.

(** X14.  Without a token or without an owner [createOrUpdateFile] sends
    nothing and fails with a message naming the missing setting; with both
    it sends exactly two requests, the lookup of the file and then one PUT
    on the contents URL of the file, whatever the lookup answers. *)
Theorem requests_need_credentials (cfg : config) (owner : option string)
    (repo branch path content message : string) :
  let '(r, reqs) := createOrUpdateFile cfg owner repo branch path content message in
  match GITHUB_TOKEN cfg, owner with
  | Some (String _ _ as token), Some (String _ _ as o) =>
      exists body,
        reqs = [ Lookup (contents_url o repo path +:+ "?ref=" +:+ branch)
                        ("Bearer " +:+ token);
                 Put (contents_url o repo path) ("Bearer " +:+ token) body ]
  | Some (String _ _), _ =>
      reqs = [] /\ r = Failed (ErrorValue (JStr "GITHUB_OWNER is not configured"))
  | _, _ =>
      reqs = [] /\ r = Failed (ErrorValue (JStr "GITHUB_TOKEN is not configured"))
  end.
Proof.
  unfold createOrUpdateFile.
  destruct (GITHUB_TOKEN cfg) as [[|c token]|]; simpl; auto.
  destruct owner as [[|c' o]|]; simpl; auto.
  eexists. reflexivity.
Qed.

(** What a call with both settings does. *)
Lemma createOrUpdateFile_with_credentials cfg token owner repo branch path content message :
  GITHUB_TOKEN cfg = Some token -> str_truthy token = true -> str_truthy owner = true ->
  createOrUpdateFile cfg (Some owner) repo branch path content message =
    let existingFile := default JNull (getFile owner token repo branch path).1 in
    let body := JSON_stringify (put_body existingFile branch content message) in
    (match fetch (contents_url owner repo path) ("Bearer " +:+ token) body with
     | FetchRejected m => Failed (ErrorValue (js_or m (JStr "Unknown error occurred")))
     | Response false status text =>
         Failed (ErrorValue (error_message owner repo branch status text))
     | Response true status text =>
         match JSON_parse text with
         | None => Failed (SyntaxErrorMessage text)
         | Some result =>
             match js_prop result "content" with
             | None => Failed TypeErrorMessage
             | Some c => Uploaded (js_opt_prop c "sha") (js_opt_prop c "html_url")
             end
         end
     end,
     [ Lookup (contents_url owner repo path +:+ "?ref=" +:+ branch) ("Bearer " +:+ token);
       Put (contents_url owner repo path) ("Bearer " +:+ token) body ]).
Proof.
  intros Ht Htt Ho. unfold createOrUpdateFile. rewrite Ht. simpl.
  rewrite Htt, Ho. reflexivity.
Qed.

(** X15.  [createOrUpdateFile] reports success exactly when both settings
    are configured and the PUT request it sent was answered with [ok] and
    a text that parses to a value other than [null]: an [ok] answer whose
    text does not parse, or parses to [null], is reported as a failure. *)
Theorem upload_reported_iff_sink_accepts (cfg : config) (owner : option string)
    (repo branch path content message : string) :
  let '(r, reqs) := createOrUpdateFile cfg owner repo branch path content message in
  (exists sha url, r = Uploaded sha url) <->
  (exists url authorization body status text result c,
     last reqs = Some (Put url authorization body) /\
     fetch url authorization body = Response true status text /\
     JSON_parse text = Some result /\ js_prop result "content" = Some c).
Proof.
  pose proof (requests_need_credentials cfg owner repo branch path content message) as Hreq.
  destruct (GITHUB_TOKEN cfg) as [[|c token]|] eqn:Ht;
    [| destruct owner as [[|c' o]|] |].
  3: { rewrite createOrUpdateFile_with_credentials with (token := String c token)
         by (auto; reflexivity). clear Hreq. simpl.
       set (url := contents_url _ _ _). set (body := JSON_stringify _).
       set (auth := "Bearer " +:+ _).
       destruct (fetch url auth body) as [m|[|] status text] eqn:Hf.
       - split; [intros (? & ? & [=])|].
         intros (? & ? & ? & ? & ? & ? & ? & [= <- <- <-] & Hf' & _). congruence.
       - destruct (JSON_parse text) as [result|] eqn:Hp.
         + destruct (js_prop result "content") as [c0|] eqn:Hc.
           * split; [|eauto]. intros _. exists url, auth, body, status, text, result, c0.
             auto.
           * split; [intros (? & ? & [=])|].
             intros (? & ? & ? & ? & ? & ? & ? & [= <- <- <-] & Hf' & Hp' & Hc').
             rewrite Hf in Hf'. injection Hf' as <- <-. congruence.
         + split; [intros (? & ? & [=])|].
           intros (? & ? & ? & ? & ? & ? & ? & [= <- <- <-] & Hf' & Hp' & _).
           rewrite Hf in Hf'. injection Hf' as <- <-. congruence.
       - split; [intros (? & ? & [=])|].
         intros (? & ? & ? & ? & ? & ? & ? & [= <- <- <-] & Hf' & _). congruence. }
  all: destruct (createOrUpdateFile _ _ _ _ _ _ _) as [r reqs];
    destruct Hreq as [-> ->];
    (split; [intros (? & ? & [=])|intros (? & ? & ? & ? & ? & ? & ? & [=] & _)]).
Qed.

(** X16.  Any failure of the lookup, not only the answer 404, is taken for
    the absence of the file: when the lookup is rejected, fails with any
    status, or answers with a body that cannot be read, the PUT request is
    still sent, and its body holds the message, the content in base 64 and
    the branch, without [sha]. *)
Theorem failed_lookup_sends_create_request (cfg : config) (token owner : string)
    (repo branch path content message : string) :
  GITHUB_TOKEN cfg = Some token -> str_truthy token = true -> str_truthy owner = true ->
  match withHttpRetry (contents_url owner repo path +:+ "?ref=" +:+ branch)
                      ("Bearer " +:+ token) with
  | RetryOk (Some _) => False
  | _ => True
  end ->
  (createOrUpdateFile cfg (Some owner) repo branch path content message).2 =
    [ Lookup (contents_url owner repo path +:+ "?ref=" +:+ branch) ("Bearer " +:+ token);
      Put (contents_url owner repo path) ("Bearer " +:+ token)
          (JSON_stringify (JObj [ ("message", JStr message);
                                  ("content", JStr (toBase64 content));
                                  ("branch", JStr branch) ])) ].
Proof.
  intros Ht Htt Ho Hlookup.
  rewrite createOrUpdateFile_with_credentials with (token := token) by assumption.
  simpl. unfold getFile. simpl.
  destruct (withHttpRetry _ _) as [[j|]|[s|]|]; try contradiction; try reflexivity.
  destruct (s =? 404); reflexivity.
Qed.

(** X17.  The messages for the statuses 401, 403, 404 and 422 are given
    only when the body of the answer parses: for an answer that is not
    [ok] and whose text does not parse, or parses to [null], the error
    reported is [GitHub API error: <status>], whatever the status. *)
Theorem unparsable_error_body_gives_status_only (cfg : config) (token owner : string)
    (repo branch path content message : string) (status : Z) (text : string) :
  GITHUB_TOKEN cfg = Some token -> str_truthy token = true -> str_truthy owner = true ->
  (forall body, fetch (contents_url owner repo path) ("Bearer " +:+ token) body
                = Response false status text) ->
  JSON_parse text = None \/ JSON_parse text = Some JNull ->
  (createOrUpdateFile cfg (Some owner) repo branch path content message).1 =
    Failed (ErrorValue (JStr ("GitHub API error: " +:+ string_of_Z status))).
Proof.
  intros Ht Htt Ho Hfetch Hparse.
  rewrite createOrUpdateFile_with_credentials with (token := token) by assumption.
  simpl. rewrite Hfetch. unfold error_message.
  destruct Hparse as [-> | ->]; reflexivity.
Qed.

End GitHubProperties.

(** Witness of X16: a rejected lookup on the network [accepting]. *)
Lemma failed_lookup_witness :
  GITHUB_TOKEN Sim.cfg = Some "ghp_example" /\
  (createOrUpdateFile (H := Sim.steady) (net := Scenario.accepting) Sim.cfg (Some "owner")
     "site-backups" "main" "backups/a.csv" "email" "Incremental backup").2 =
    [ Lookup "https://api.github.com/repos/owner/site-backups/contents/backups/a.csv?ref=main"
             "Bearer ghp_example";
      Put "https://api.github.com/repos/owner/site-backups/contents/backups/a.csv"
          "Bearer ghp_example"
          (Sim.print (JObj [ ("message", JStr "Incremental backup");
                             ("content", JStr "ZW1haWw=");
                             ("branch", JStr "main") ])) ].
Proof.
  split; [reflexivity|].
  exact (failed_lookup_sends_create_request (H := Sim.steady) (net := Scenario.accepting)
           Sim.cfg "ghp_example" "owner" "site-backups" "main" "backups/a.csv" "email"
           "Incremental backup" eq_refl eq_refl eq_refl I).
Defined.

(** Witness of X17: the token refused with a body that is not JSON. *)
Lemma unparsable_error_witness :
  Sim.parse "Bad credentials" = None /\
  (createOrUpdateFile (H := Sim.steady) (net := Scenario.refusing) Sim.cfg (Some "owner")
     "site-backups" "main" "backups/a.csv" "email" "Incremental backup").1 =
    Failed (ErrorValue (JStr "GitHub API error: 401")).
Proof.
  assert (Hp : Sim.parse "Bad credentials" = None) by (vm_compute; reflexivity).
  split; [exact Hp|].
  exact (unparsable_error_body_gives_status_only (H := Sim.steady) (net := Scenario.refusing)
           Sim.cfg "ghp_example" "owner" "site-backups" "main" "backups/a.csv" "email"
           "Incremental backup" 401 "Bad credentials" eq_refl eq_refl eq_refl
           (fun _ => eq_refl) (or_introl Hp)).
Defined.

(** ** The full cleanup *)

Section CleanupProperties.
Context `{Host}.

Lemma only_deleted_delete (P : string -> Prop) (base m : gmap string string) name :
  P name -> only_deleted P base m -> only_deleted P base (delete name m).
Proof.
  intros HP Hm key. destruct (decide (key = name)) as [->|Hne].
  - right. split; [apply lookup_delete_eq|exact HP].
  - rewrite lookup_delete_ne by congruence. apply Hm.
Qed.

Lemma only_deleted_absent (P : string -> Prop) (m m' : gmap string string) key :
  only_deleted P m m' -> m !! key = None -> m' !! key = None.
Proof. intros Hd Hk. destruct (Hd key) as [Heq|[Hn _]]; congruence. Qed.

Lemma only_deleted_trans (P : string -> Prop) (m1 m2 m3 : gmap string string) :
  only_deleted P m1 m2 -> only_deleted P m2 m3 -> only_deleted P m1 m3.
Proof.
  intros H12 H23 key. destruct (H23 key) as [Heq|[Hn HP]]; [|now right].
  rewrite Heq. apply H12.
Qed.

Lemma pages_listed_app e1 e2 : pages_listed (e1 ++ e2) = pages_listed e1 ++ pages_listed e2.
Proof.
  induction e1 as [|e e1 IH]; [reflexivity|]. destruct e; simpl; now rewrite ?IH.
Qed.

Lemma only_deleted_weaken (P Q : string -> Prop) (m m' : gmap string string) :
  (forall key, P key -> Q key) -> only_deleted P m m' -> only_deleted Q m m'.
Proof. intros HPQ Hd key. destruct (Hd key) as [Heq|[Hn HP]]; auto. Qed.

Lemma cleanup_page_effect c ks :
  forall p w p' w' evs,
    cleanup_page c ks p w = (p', w', evs) ->
    only_deleted (fun key => In key ks /\ shouldKeep c key = false) (kv w) (kv w') /\
    (forall key, In key ks -> shouldKeep c key = false -> kv w' !! key = None) /\
    deleted p' = deleted p + Z.of_nat (tally is_deletion evs) /\
    tally is_deletion evs = length (List.filter (fun key => negb (shouldKeep c key)) ks) /\
    pages_listed evs = [].
Proof.
  induction ks as [|name ks IH]; intros p w p' w' evs Hrun; simpl in Hrun.
  - injection Hrun as <- <- <-. split; [apply only_deleted_refl|].
    split; [intros ? []|]. split; [unfold tally; simpl; lia|]. split; reflexivity.
  - simpl. destruct (shouldKeep c name) eqn:Hkeep; simpl.
    + apply IH in Hrun as (Hd & Hgone & Hn & Hlen & Hp). simpl in Hn.
      split; [eapply only_deleted_weaken; [|exact Hd]; intros key [? ?]; auto|].
      split; [|auto].
      intros key [<-|Hin] Hk; [congruence|now apply Hgone].
    + invert_bind Hrun. injection Hrun0 as <- <- <-. subst evs.
      apply IH in Hrun as (Hd & Hgone & Hn & Hlen & Hp). simpl in Hd, Hn.
      split.
      { eapply only_deleted_trans.
        - apply only_deleted_delete; [|apply only_deleted_refl]. split; [now left|exact Hkeep].
        - eapply only_deleted_weaken; [|exact Hd]. intros key [? ?]; auto. }
      split.
      { intros key [<-|Hin] Hk; [|now apply Hgone].
        eapply only_deleted_absent; [exact Hd|]. simpl. apply lookup_delete_eq. }
      change (KVDelete name :: e0) with ([KVDelete name] ++ e0).
      rewrite tally_app. unfold tally at 1. unfold tally at 2. simpl.
      split; [lia|]. split; [|exact Hp]. now rewrite Hlen.
Qed.

Lemma cleanup_pages_effect c fuel :
  forall cur p w done w' evs,
    cleanup_pages fuel c cur p w = (done, w', evs) ->
    only_deleted (fun key => shouldKeep c key = false) (kv w) (kv w') /\
    (forall pg key, In pg (pages_listed evs) -> In key (keys pg) ->
       shouldKeep c key = false -> kv w' !! key = None) /\
    (forall p', done = Some p' ->
       deleted p' = deleted p + Z.of_nat (tally is_deletion evs) /\
       exists pg, last (pages_listed evs) = Some pg /\ list_complete pg = true).
Proof.
  induction fuel as [|fuel IH]; intros cur p w done w' evs Hrun; simpl in Hrun.
  - injection Hrun as <- <- <-. split; [apply only_deleted_refl|].
    split; [intros ? ? []|discriminate].
  - invert_bind Hrun. injection Hrun0 as <- <- <-.
    invert_bind Hrun. apply cleanup_page_effect in Hrun0 as (Hd1 & Hgone1 & Hn1 & _ & Hp1).
    simpl in Hd1.
    apply (only_deleted_weaken _ (fun key => shouldKeep c key = false)) in Hd1;
      [|now intros key [_ ?]]. subst evs e0. simpl.
    destruct (list_complete (kv_list (kv w) EmptyString 1000 cur)) eqn:Hlc; simpl in Hrun.
    + injection Hrun as <- <- <-. rewrite app_nil_r, Hp1. split; [exact Hd1|].
      split.
      * intros pg key [<-|[]] Hin Hk. now apply Hgone1.
      * intros p' [= <-]. split.
        { change (KVList ?a ?b ?c ?d :: ?l) with ([KVList a b c d] ++ l).
          rewrite tally_app. unfold tally at 1. simpl. lia. }
        eexists. split; [reflexivity|exact Hlc].
    + apply IH in Hrun as (Hd2 & Hgone2 & Hfin).
      rewrite pages_listed_app, Hp1. simpl.
      split; [eapply only_deleted_trans; eassumption|].
      split.
      * intros pg key [<-|Hin] Hk Hkeep; [|now apply (Hgone2 pg)].
        eapply only_deleted_absent; [exact Hd2|]. now apply Hgone1.
      * intros p' Hdone. destruct (Hfin p' Hdone) as (Hn2 & pg & Hlast & Hpg).
        split.
        { change (KVList ?a ?b ?c ?d :: ?l) with ([KVList a b c d] ++ l).
          rewrite !tally_app. unfold tally at 1. simpl. lia. }
        exists pg. split; [|exact Hpg].
        destruct (pages_listed e1); [discriminate|exact Hlast].
Qed.

Lemma runCleanup_pages fuel c w :
  exists done w1 evs,
    cleanup_pages fuel c None {| deleted := 0; kept_so_far := []; cleaned_so_far := [] |}
      (tick w) = (done, w1, evs) /\
    runCleanup fuel c w =
      (match done with
       | Some p => Some {| cleanedTotal := deleted p;
                           keptPrefixes := kept_so_far p;
                           cleanedPrefixes := cleaned_so_far p;
                           timestamp := Date_toISOString (clock (ticks w)) |}
       | None => None
       end, w1, evs).
Proof.
  unfold runCleanup, bind, Date_now, ret. fold (tick w).
  destruct (cleanup_pages fuel c None _ (tick w)) as [[done w1] evs].
  exists done, w1, evs. split; [reflexivity|]. simpl. now rewrite app_nil_r.
Qed.

Lemma runCleanup_effect fuel c w :
  let '(res, w', evs) := runCleanup fuel c w in
  only_deleted (fun key => shouldKeep c key = false) (kv w) (kv w') /\
  (forall pg key, In pg (pages_listed evs) -> In key (keys pg) ->
     shouldKeep c key = false -> kv w' !! key = None) /\
  (forall r, res = Some r ->
     cleanedTotal r = Z.of_nat (tally is_deletion evs) /\
     exists pg, last (pages_listed evs) = Some pg /\ list_complete pg = true).
Proof.
  destruct (runCleanup_pages fuel c w) as (done & w1 & evs & Hpages & ->).
  apply cleanup_pages_effect in Hpages as (Hd & Hgone & Hfin).
  split; [exact Hd|]. split; [exact Hgone|].
  intros r Hr. destruct done as [p|]; [|discriminate].
  injection Hr as <-. simpl. now destruct (Hfin p eq_refl) as [-> ?].
Qed.

(** X18.  The full cleanup changes the store by deletions only, and it
    never deletes a key that starts with one of the eight prefixes to
    keep: however many pages it gets through, every such key holds
    afterwards what it held before. *)
Theorem cleanup_never_deletes_kept_keys (fuel : nat) (c : cleanup_config) (w : world) :
  let '(_, w', _) := runCleanup fuel c w in
  only_deleted (fun key => shouldKeep c key = false) (kv w) (kv w').
Proof.
  pose proof (runCleanup_effect fuel c w) as Heff.
  destruct (runCleanup fuel c w) as [[res w'] evs]. apply Heff.
Qed.



Lemma strip_prefix_app p s : strip_prefix p (p +:+ s) = Some s.
Proof.
  induction p as [|a p IH]; [reflexivity|].
  rewrite app_cons. simpl. now rewrite Ascii.eqb_refl.
Qed.

Lemma startsWith_app p s : startsWith (p +:+ s) p = true.
Proof. unfold startsWith. now rewrite strip_prefix_app. Qed.

(** X21.  The full cleanup and the incremental maintenance can share a
    namespace: the full cleanup leaves the checkpoint, the completion
    record and both archive buffers of the incremental module as they are,
    as well as every subscriber and contact record. *)
Theorem cleanup_keeps_maintenance_state (fuel : nat) (c : cleanup_config) (w : world)
    (key : string) :
  In key (maintenance_keys (incremental c)) \/
  startsWith key (PREFIX_SUBSCRIBER (incremental c)) = true \/
  startsWith key (PREFIX_CONTACT (incremental c)) = true ->
  kv (runCleanup fuel c w).1.2 !! key = kv w !! key.
Proof.
  intros Hkey.
  pose proof (runCleanup_effect fuel c w) as Heff.
  destruct (runCleanup fuel c w) as [[res w'] evs]. destruct Heff as (Hd & _). simpl.
  assert (Hkeep : shouldKeep c key = true).
  { unfold shouldKeep, keepPrefixes. simpl.
    destruct Hkey as [Hin|[-> | ->]]; [|reflexivity|now rewrite orb_true_r].
    assert (Hm : startsWith key (KEEP_PREFIX_MAINTENANCE (incremental c)) = true).
    { destruct Hin as [<-|[<-|[<-|[<-|[]]]]]; apply startsWith_app. }
    rewrite Hm. now rewrite !orb_true_r. }
  destruct (Hd key) as [Heq|[_ Hno]]; [exact Heq|congruence].
Qed.

End CleanupProperties.

(** Witness of X21: the checkpoint of a cycle across a full cleanup that
    deletes three rate-limit records. *)
Lemma cleanup_keeps_checkpoint_witness :
  In "maintenance:incremental-state"
     (maintenance_keys (H := Sim.steady) (incremental Scenario.cleanup_cfg)) /\
  cleanedTotal <$> (Scenario.full_cleanup).1.1 = Some 3 /\
  kv (Scenario.full_cleanup).1.2 !! "maintenance:incremental-state"
    = kv Scenario.mixed_world !! "maintenance:incremental-state".
Proof.
  assert (Hin : In "maintenance:incremental-state"
                   (maintenance_keys (H := Sim.steady) (incremental Scenario.cleanup_cfg)))
    by (left; reflexivity).
  split; [exact Hin|]. split; [vm_compute; reflexivity|].
  exact (cleanup_keeps_maintenance_state (H := Sim.steady) 1 Scenario.cleanup_cfg
           Scenario.mixed_world "maintenance:incremental-state" (or_introl Hin)).
Defined.


Section CleanupSpecificProperties.
Context `{Host}.
Variable RegExp : string -> option (string -> bool).




End CleanupSpecificProperties.

(** ** HTML sanitization *)

Lemma replace_all_app c r s t :
  replace_all c r (s +:+ t) = replace_all c r s +:+ replace_all c r t.
Proof.
  induction s as [|a s IH]; [reflexivity|].
  rewrite app_cons. simpl. destruct (Ascii.eqb a c).
  - now rewrite IH, string_app_assoc.
  - now rewrite IH, app_cons.
Qed.

Lemma string_cons_app c s : String c s = String c EmptyString +:+ s.
Proof. reflexivity. Qed.

Lemma free_of_app p s t : free_of p s -> free_of p t -> free_of p (s +:+ t).
Proof.
  unfold free_of. induction s as [|c s IH]; intros Hs Ht; [exact Ht|].
  rewrite app_cons. simpl in *. inversion Hs; subst. constructor; auto.
Qed.

Lemma escape_chain_app s t :
  Sanitize.escape_chain (s +:+ t) = Sanitize.escape_chain s +:+ Sanitize.escape_chain t.
Proof. unfold Sanitize.escape_chain. now rewrite !replace_all_app. Qed.

Lemma escape_chain_char c :
  Sanitize.escape_chain (String c EmptyString) = entity_of c.
Proof. destruct c as [[] [] [] [] [] [] [] []]; reflexivity. Qed.

Lemma escape_chain_at_once s : Sanitize.escape_chain s = escaped_at_once s.
Proof.
  induction s as [|c s IH]; [reflexivity|].
  rewrite string_cons_app, escape_chain_app, escape_chain_char, IH. reflexivity.
Qed.

(** X23.  The six replacements that [escapeHtml] makes one after the other
    amount to replacing every character once: no entity written by an
    earlier replacement is touched by a later one.  A falsy argument (the
    empty string, but also [0], [false], [null]) gives the empty string. *)
Theorem escapeHtml_escapes_each_character_once (unsafe : jsval) :
  Sanitize.escapeHtml unsafe =
    if truthy unsafe then escaped_at_once (js_to_string unsafe) else EmptyString.
Proof.
  unfold Sanitize.escapeHtml. destruct (truthy unsafe); [|reflexivity].
  apply escape_chain_at_once.
Qed.

(** X24.  The text that [sanitizeHtml] of the sanitization utilities
    returns holds none of the characters [<], [>], double quote,
    apostrophe and [/], whatever value it is given. *)
Theorem sanitizeHtml_output_is_inert (html : jsval) :
  free_of html_delimiter (Sanitize.sanitizeHtml html).
Proof.
  unfold Sanitize.sanitizeHtml, Sanitize.escapeHtml.
  destruct (truthy html); simpl; [|constructor].
  rewrite escape_chain_at_once.
  induction (js_to_string html) as [|c s IH]; [constructor|].
  simpl. apply free_of_app; [|exact IH].
  destruct c as [[] [] [] [] [] [] [] []];
    repeat (constructor; [reflexivity|]); constructor.
Qed.

Section ValidationFixProperties.
Import ValidationFix.

Lemma strip_prefix_Some p s r : strip_prefix p s = Some r -> s = p +:+ r.
Proof.
  revert s. induction p as [|a p IH]; intros s; simpl; [now intros [= ->]|].
  destruct s as [|b s]; [discriminate|].
  destruct (Ascii.eqb_spec a b) as [->|]; [|discriminate].
  intros Hs. rewrite app_cons. f_equal. now apply IH.
Qed.

Lemma not_plain c :
  plain c = false ->
  c = "&"%char \/ c = "<"%char \/ c = ">"%char \/ c = quote_char \/ c = apostrophe.
Proof.
  destruct c as [[] [] [] [] [] [] [] []]; try discriminate; intros _;
    first [ left; reflexivity
          | right; left; reflexivity
          | right; right; left; reflexivity
          | right; right; right; left; reflexivity
          | right; right; right; right; reflexivity ].
Qed.

Lemma replacement_plain c rest :
  plain c = true -> replacement c rest = String c EmptyString.
Proof. destruct c as [[] [] [] [] [] [] [] []]; try discriminate; reflexivity. Qed.

Lemma replaced_at_once_plain p t :
  forallb plain (list_ascii_of_string p) = true ->
  replaced_at_once (p +:+ t) = p +:+ replaced_at_once t.
Proof.
  induction p as [|c p IH]; [reflexivity|]. simpl. intros [Hc Hp]%andb_prop.
  rewrite !app_cons. simpl. rewrite replacement_plain by exact Hc.
  rewrite app_cons, app_nil. f_equal. now apply IH.
Qed.

Lemma entity_ahead_spec rest :
  entity_ahead rest = true ->
  exists name r, In name ["lt;"; "gt;"; "quot;"; "#39;"; "amp;"] /\ rest = name +:+ r.
Proof.
  unfold entity_ahead. intros (name & Hin & Hs)%existsb_exists.
  unfold startsWith in Hs. destruct (strip_prefix name rest) as [r|] eqn:Hr; [|discriminate].
  exists name, r. split; [exact Hin|]. now apply strip_prefix_Some.
Qed.

Lemma entity_ahead_app name r :
  In name ["lt;"; "gt;"; "quot;"; "#39;"; "amp;"] -> entity_ahead (name +:+ r) = true.
Proof.
  intros Hin. unfold entity_ahead. apply existsb_exists. exists name.
  split; [exact Hin|]. apply startsWith_app.
Qed.

Lemma entity_name_plain name :
  In name ["lt;"; "gt;"; "quot;"; "#39;"; "amp;"] ->
  forallb plain (list_ascii_of_string name) = true.
Proof. intros [<-|[<-|[<-|[<-|[<-|[]]]]]]; reflexivity. Qed.

Lemma entity_ahead_replaced rest :
  entity_ahead rest = true -> entity_ahead (replaced_at_once rest) = true.
Proof.
  intros (name & r & Hin & ->)%entity_ahead_spec.
  rewrite replaced_at_once_plain by now apply entity_name_plain.
  now apply entity_ahead_app.
Qed.

Lemma chain_char c rest :
  replace_all apostrophe "&#39;"
    (replace_all quote_char "&quot;"
       (replace_all ">" "&gt;"
          (replace_all "<" "&lt;"
             (if Ascii.eqb c "&" && negb (entity_ahead rest)
              then "&amp;" else String c EmptyString))))
  = replacement c rest.
Proof.
  unfold replacement.
  destruct c as [[] [] [] [] [] [] [] []]; try reflexivity.
  simpl. destruct (entity_ahead rest); reflexivity.
Qed.

Lemma sanitizeHtml_at_once s : sanitizeHtml s = replaced_at_once s.
Proof.
  assert (Hchain : forall s,
    replace_all apostrophe "&#39;"
      (replace_all quote_char "&quot;"
         (replace_all ">" "&gt;"
            (replace_all "<" "&lt;" (escape_bare_ampersands s))))
    = replaced_at_once s).
  { clear s. induction s as [|c rest IH]; [reflexivity|].
    simpl. rewrite <- IH, <- (chain_char c rest), <- !replace_all_app.
    destruct (Ascii.eqb c "&" && negb (entity_ahead rest)); reflexivity. }
  unfold sanitizeHtml. destruct s as [|c rest]; [reflexivity|]. apply Hchain.
Qed.

Lemma replaced_at_once_cons c rest :
  replaced_at_once (String c rest) = replacement c rest +:+ replaced_at_once rest.
Proof. reflexivity. Qed.

Lemma replacement_ampersand rest :
  replacement "&" rest = if entity_ahead rest then "&" else "&amp;".
Proof. reflexivity. Qed.

Lemma replaced_at_once_idempotent s :
  replaced_at_once (replaced_at_once s) = replaced_at_once s.
Proof.
  induction s as [|c rest IH]; [reflexivity|].
  assert (Hentity : forall name,
    In name ["lt;"; "gt;"; "quot;"; "#39;"; "amp;"] ->
    replaced_at_once (String "&" (name +:+ replaced_at_once rest))
    = String "&" (name +:+ replaced_at_once rest)).
  { intros name Hin. rewrite replaced_at_once_cons, replacement_ampersand.
    rewrite entity_ahead_app by exact Hin.
    rewrite app_cons, app_nil. f_equal.
    rewrite replaced_at_once_plain by now apply entity_name_plain.
    now rewrite IH. }
  rewrite replaced_at_once_cons. destruct (plain c) eqn:Hplain.
  - rewrite replacement_plain by exact Hplain. rewrite app_cons, app_nil.
    rewrite replaced_at_once_cons, replacement_plain by exact Hplain.
    now rewrite app_cons, app_nil, IH.
  - apply not_plain in Hplain as [->|[->|[->|[->| ->]]]].
    + rewrite replacement_ampersand. destruct (entity_ahead rest) eqn:Hahead.
      * rewrite app_cons, app_nil, replaced_at_once_cons, replacement_ampersand.
        rewrite entity_ahead_replaced by exact Hahead. now rewrite app_cons, app_nil, IH.
      * apply (Hentity "amp;"). simpl. tauto.
    + apply (Hentity "lt;"). simpl. tauto.
    + apply (Hentity "gt;"). simpl. tauto.
    + apply (Hentity "quot;"). simpl. tauto.
    + apply (Hentity "#39;"). simpl. tauto.
Qed.

(** X25.  [sanitizeHtml] of the validation fix can be applied twice
    without harm: sanitizing a text that was sanitized already changes
    nothing, because the ampersand of an entity that stands in the text is
    left alone. *)
Theorem sanitizeHtml_is_idempotent (input : string) :
  sanitizeHtml (sanitizeHtml input) = sanitizeHtml input.
Proof. rewrite !sanitizeHtml_at_once. apply replaced_at_once_idempotent. Qed.

Lemma escaped_cons c rest :
  escaped (String c rest) =
    (if Ascii.eqb c "&" then entity_ahead rest else negb (markup c)) && escaped rest.
Proof. reflexivity. Qed.

Lemma escaped_plain c rest : plain c = true -> escaped (String c rest) = escaped rest.
Proof.
  intros Hc. rewrite escaped_cons.
  destruct c as [[] [] [] [] [] [] [] []]; try discriminate; reflexivity.
Qed.

Lemma escaped_plain_app p t :
  forallb plain (list_ascii_of_string p) = true -> escaped (p +:+ t) = escaped t.
Proof.
  induction p as [|c p IH]; [reflexivity|]. intros Hall.
  change (plain c && forallb plain (list_ascii_of_string p) = true) in Hall.
  apply andb_prop in Hall as [Hc Hp].
  rewrite app_cons, escaped_plain by exact Hc. now apply IH.
Qed.

(** X26.  In the text that [sanitizeHtml] of the validation fix returns,
    every ampersand starts one of the five entities [&lt;], [&gt;],
    [&quot;], [&#39;], [&amp;], and none of the characters [<], [>], double
    quote and apostrophe is left. *)
Theorem sanitizeHtml_output_is_escaped (input : string) :
  escaped (sanitizeHtml input) = true.
Proof.
  rewrite sanitizeHtml_at_once. induction input as [|c rest IH]; [reflexivity|].
  assert (Hentity : forall name,
    In name ["lt;"; "gt;"; "quot;"; "#39;"; "amp;"] ->
    escaped (String "&" (name +:+ replaced_at_once rest)) = true).
  { intros name Hin. rewrite escaped_cons. simpl Ascii.eqb. cbv iota.
    rewrite entity_ahead_app by exact Hin.
    rewrite escaped_plain_app by now apply entity_name_plain. now rewrite IH. }
  rewrite replaced_at_once_cons. destruct (plain c) eqn:Hplain.
  - rewrite replacement_plain by exact Hplain.
    rewrite app_cons, app_nil, escaped_plain by exact Hplain. exact IH.
  - apply not_plain in Hplain as [->|[->|[->|[->| ->]]]].
    + rewrite replacement_ampersand. destruct (entity_ahead rest) eqn:Hahead.
      * rewrite app_cons, app_nil, escaped_cons. simpl Ascii.eqb. cbv iota.
        rewrite entity_ahead_replaced by exact Hahead. now rewrite IH.
      * apply (Hentity "amp;"). simpl. tauto.
    + apply (Hentity "lt;"). simpl. tauto.
    + apply (Hentity "gt;"). simpl. tauto.
    + apply (Hentity "quot;"). simpl. tauto.
    + apply (Hentity "#39;"). simpl. tauto.
Qed.

End ValidationFixProperties.
